(** * mem_alloc_cuda_example: negotiation of memory allocation kinds

    A model of [main] of [examples-src/mem_alloc_cuda_example.cpp] and of
    the group of processes that runs it, and what holds of its runs.

    [main] is written in a monad of processes: a statement changes the
    state of the process, or halts it, or enters a collective call and
    waits there until every process of the group has entered the same call.
    The state holds the variables of [main], the heap (host, device and
    managed blocks), the copies queued on the CUDA stream, and the trace of
    what the process did.  What the program does not decide (which kinds
    the MPI library reports, whether [malloc] returns memory) is the
    process's [env].

    Device memory is not accessible to host code: a load or a store of
    [main] that falls in a device block is recorded in the trace, with the
    kind of the block, and halts the process there. *)

From Stdlib Require Import ZArith List String Ascii Bool Lia Permutation.
From Equations Require Import Equations.
Import ListNotations.
Open Scope string_scope.
Open Scope Z_scope.

(** * C strings: [strsep] and [strcasecmp] *)

(** A [char] read as [unsigned char]. *)
Definition uchar (c : ascii) : Z := Z.of_nat (nat_of_ascii c).

Definition tolower (c : ascii) : ascii :=
  if (65 <=? uchar c) && (uchar c <=? 90)
  then ascii_of_nat (nat_of_ascii c + 32) else c.

(** The difference of the first two characters that differ once in lower
    case, 0 when there is none. *)
Fixpoint strcasecmp (a b : string) : Z :=
  match a, b with
  | EmptyString, EmptyString => 0
  | EmptyString, String cb _ => 0 - uchar (tolower cb)
  | String ca _, EmptyString => uchar (tolower ca)
  | String ca a', String cb b' =>
      let d := uchar (tolower ca) - uchar (tolower cb) in
      if d =? 0 then strcasecmp a' b' else d
  end.

Fixpoint strchr_in (delim : string) (c : ascii) : bool :=
  match delim with
  | EmptyString => false
  | String d delim' => Ascii.eqb c d || strchr_in delim' c
  end.

(** The token at the head of [s], and what follows the delimiter that ends
    it ([None] when the token runs to the end of [s]). *)
Fixpoint strsep_scan (delim : string) (s : string) : string * option string :=
  match s with
  | EmptyString => (EmptyString, None)
  | String c s' =>
      if strchr_in delim c then (EmptyString, Some s')
      else let (tok, rest) := strsep_scan delim s' in (String c tok, rest)
  end.

(** [strsep(&stringp, delim)]: the token returned and the new value of
    [stringp]; both are NULL when [stringp] was. *)
Definition strsep (stringp : option string) (delim : string)
  : option string * option string :=
  match stringp with
  | None => (None, None)
  | Some s => let (tok, rest) := strsep_scan delim s in (Some tok, rest)
  end.

Definition remaining (stringp : option string) : nat :=
  match stringp with
  | None => 0%nat
  | Some s => S (String.length s)
  end.

Lemma strsep_scan_shorter delim s tok rest :
  strsep_scan delim s = (tok, rest) ->
  (remaining rest <= String.length s)%nat.
Proof.
  revert tok rest; induction s as [|c s IH]; simpl; intros tok rest H.
  - inversion H; subst; simpl; lia.
  - destruct (strchr_in delim c).
    + inversion H; subst; simpl; lia.
    + destruct (strsep_scan delim s) as [t r] eqn:E.
      inversion H; subst. specialize (IH _ _ eq_refl). lia.
Qed.

Lemma strsep_decreases stringp delim kind rest :
  strsep stringp delim = (Some kind, rest) ->
  (remaining rest < remaining stringp)%nat.
Proof.
  destruct stringp as [s|]; simpl; [|discriminate].
  destruct (strsep_scan delim s) as [t r] eqn:E.
  intros H; inversion H; subst.
  apply strsep_scan_shorter in E. lia.
Qed.

Definition inspect {A} (a : A) : {b | a = b} := exist _ a eq_refl.

(** Lines 42-49, on the pair ([cuda_managed_aware], [cuda_device_aware]). *)
Equations kinds_loop (val : option string) (aware : Z * Z) : Z * Z
  by wf (remaining val) lt :=
  kinds_loop val aware with inspect (strsep val ",") := {
    | exist _ (Some kind, val') _ =>
        if strcasecmp kind "cuda:managed" =? 0
        then kinds_loop val' (1, snd aware)
        else if strcasecmp kind "cuda:device" =? 0
        then kinds_loop val' (fst aware, 1)
        else kinds_loop val' aware
    | exist _ (None, _) _ => aware }.
Next Obligation. eapply strsep_decreases; eauto. Qed.
Next Obligation. eapply strsep_decreases; eauto. Qed.
Next Obligation. eapply strsep_decreases; eauto. Qed.

(** * Machine model: MPI sessions, communicators, CUDA buffers *)

Inductive MemoryKind : Type := System | Device | Managed.

Definition MemoryKind_eqb (a b : MemoryKind) : bool :=
  match a, b with
  | System, System | Device, Device | Managed, Managed => true
  | _, _ => false
  end.

(** Preference order of the kinds: Managed > Device > System. *)
Definition preference (k : MemoryKind) : nat :=
  match k with System => 0%nat | Device => 1%nat | Managed => 2%nat end.

(** The identifiers of the kinds in [mpi_memory_alloc_kinds] and
    [mpi_assert_memory_alloc_kinds]. *)
Definition kind_ident (k : MemoryKind) : string :=
  match k with
  | System => "system"
  | Device => "cuda:device"
  | Managed => "cuda:managed"
  end.

Definition kind_of_ident (s : string) : option MemoryKind :=
  if String.eqb s "system" then Some System
  else if String.eqb s "cuda:device" then Some Device
  else if String.eqb s "cuda:managed" then Some Managed
  else None.

(** A communicator handle: the string tag and the asserted allocation kinds
    it was created with, and the number of processes of its group. *)
Record comm : Type := {
  comm_tag : string;
  comm_assert : option string;
  comm_size : nat
}.

Definition comm_eqb (a b : comm) : bool :=
  String.eqb (comm_tag a) (comm_tag b)
  && match comm_assert a, comm_assert b with
     | Some x, Some y => String.eqb x y
     | None, None => true
     | _, _ => false
     end
  && Nat.eqb (comm_size a) (comm_size b).

Definition asserted_kind (c : comm) : option MemoryKind :=
  match comm_assert c with
  | Some a => kind_of_ident a
  | None => None
  end.

Inductive mpi_op : Type := MPI_LAND | MPI_SUM.

Definition mpi_op_eqb (a b : mpi_op) : bool :=
  match a, b with
  | MPI_LAND, MPI_LAND | MPI_SUM, MPI_SUM => true
  | _, _ => false
  end.

(** The variables of [main], grouped by their C type. *)
Inductive ivar : Type :=
  cuda_device_aware | cuda_managed_aware | len | flag | nranks.
Inductive pvar : Type := managed_buf | device_buf | system_buf | valptr.
Inductive cvar : Type := system_comm | cuda_managed_comm | cuda_device_comm.

Definition ivar_eqb (a b : ivar) : bool :=
  match a, b with
  | cuda_device_aware, cuda_device_aware
  | cuda_managed_aware, cuda_managed_aware
  | len, len | flag, flag | nranks, nranks => true
  | _, _ => false
  end.

Definition pvar_eqb (a b : pvar) : bool :=
  match a, b with
  | managed_buf, managed_buf | device_buf, device_buf
  | system_buf, system_buf | valptr, valptr => true
  | _, _ => false
  end.

Definition cvar_eqb (a b : cvar) : bool :=
  match a, b with
  | system_comm, system_comm | cuda_managed_comm, cuda_managed_comm
  | cuda_device_comm, cuda_device_comm => true
  | _, _ => false
  end.

(** Heap blocks are named by their allocation index; [None] is NULL. *)
Definition ptr : Type := nat.

Record block : Type := {
  blk_kind : MemoryKind;
  blk_live : bool;
  blk_val : option Z          (* [None]: indeterminate *)
}.

(** Where a buffer argument lives: an [int] variable of [main] (host stack)
    or a heap block. *)
Inductive address : Type :=
| Stack (x : ivar)
| Heap (p : ptr).

Definition address_eqb (a b : address) : bool :=
  match a, b with
  | Stack x, Stack y => ivar_eqb x y
  | Heap p, Heap q => Nat.eqb p q
  | _, _ => false
  end.

Inductive cudaMemcpyKind : Type :=
  cudaMemcpyHostToDevice | cudaMemcpyDeviceToHost.

(** What a process does, in program order. Loads, stores and reductions
    record the kind of the memory they touch and the values moved; a load
    that faults moves none. An allocation records the pointer returned,
    [None] for NULL. *)
Inductive event : Type :=
| EvInfoCreate
| EvInfoSet (key value : string)
| EvInfoFree
| EvSessionInit
| EvSessionGetInfo
| EvInfoGetString (key : string) (buflen : Z) (found : bool)
| EvGroupFromSessionPset (pset : string)
| EvGroupFree
| EvCommCreate (c : comm)
| EvCommSize (c : comm)
| EvAllreduce (op : mpi_op) (buf : address) (k : MemoryKind) (c : comm)
              (sent recv : Z)
| EvCommDisconnect (c : comm)
| EvSessionFinalize
| EvMalloc (size : Z) (p : option ptr)
| EvFree (p : ptr) (held : option Z)
| EvCudaMalloc (p : option ptr)
| EvCudaMallocManaged (p : option ptr)
| EvCudaFree (p : ptr) (held : option Z)
| EvMemcpyAsync (dst src : ptr) (dir : cudaMemcpyKind)
| EvStreamSynchronize
| EvHostStore (p : ptr) (k : MemoryKind) (v : Z)
| EvHostLoad (p : ptr) (k : MemoryKind) (v : option Z)
| EvPrintf (msg : string).

Definition MPI_Info : Type := list (string * string).

Record state : Type := {
  ints : ivar -> Z;
  ptrs : pvar -> option ptr;
  comms : cvar -> option comm;         (* [None]: MPI_COMM_NULL *)
  val : option string;                 (* the C string [val] points to *)
  info : option MPI_Info;              (* [None]: MPI_INFO_NULL *)
  session : bool;
  wgroup : bool;
  heap : list block;
  stream : list (ptr * ptr);           (* copies queued on stream 0 *)
  mallocs : nat;                       (* calls of malloc so far *)
  trace : list event
}.

(** What the surroundings of one process decide: the value the session
    reports for [mpi_memory_alloc_kinds] ([None] when the key is not
    there), whether the successive calls of [malloc] return memory (calls
    past the end of the list do), and whether the one call [main] makes of
    [cudaMallocManaged] or [cudaMalloc] does. *)
Record env : Type := {
  supported_kinds : option string;
  malloc_ok : list bool;
  cuda_alloc_ok : bool
}.

(** The character a C string literal writes as backslash n. *)
Definition newline : string := String "010"%char EmptyString.

(** ** State updates *)

Definition override {K V : Type} (eqb : K -> K -> bool) (f : K -> V)
  (k : K) (v : V) : K -> V :=
  fun k' => if eqb k' k then v else f k'.

Definition set_int (x : ivar) (v : Z) (s : state) : state :=
  {| ints := override ivar_eqb (ints s) x v; ptrs := ptrs s;
     comms := comms s; val := val s; info := info s; session := session s;
     wgroup := wgroup s; heap := heap s; stream := stream s;
     mallocs := mallocs s; trace := trace s |}.

Definition set_ptr (x : pvar) (v : option ptr) (s : state) : state :=
  {| ints := ints s; ptrs := override pvar_eqb (ptrs s) x v;
     comms := comms s; val := val s; info := info s; session := session s;
     wgroup := wgroup s; heap := heap s; stream := stream s;
     mallocs := mallocs s; trace := trace s |}.

Definition set_comm (x : cvar) (v : option comm) (s : state) : state :=
  {| ints := ints s; ptrs := ptrs s;
     comms := override cvar_eqb (comms s) x v; val := val s; info := info s;
     session := session s; wgroup := wgroup s; heap := heap s;
     stream := stream s; mallocs := mallocs s; trace := trace s |}.

Definition set_val (v : option string) (s : state) : state :=
  {| ints := ints s; ptrs := ptrs s; comms := comms s; val := v;
     info := info s; session := session s; wgroup := wgroup s;
     heap := heap s; stream := stream s; mallocs := mallocs s;
     trace := trace s |}.

Definition set_info (v : option MPI_Info) (s : state) : state :=
  {| ints := ints s; ptrs := ptrs s; comms := comms s; val := val s;
     info := v; session := session s; wgroup := wgroup s; heap := heap s;
     stream := stream s; mallocs := mallocs s; trace := trace s |}.

Definition set_session (v : bool) (s : state) : state :=
  {| ints := ints s; ptrs := ptrs s; comms := comms s; val := val s;
     info := info s; session := v; wgroup := wgroup s; heap := heap s;
     stream := stream s; mallocs := mallocs s; trace := trace s |}.

Definition set_wgroup (v : bool) (s : state) : state :=
  {| ints := ints s; ptrs := ptrs s; comms := comms s; val := val s;
     info := info s; session := session s; wgroup := v; heap := heap s;
     stream := stream s; mallocs := mallocs s; trace := trace s |}.

Definition set_heap (v : list block) (s : state) : state :=
  {| ints := ints s; ptrs := ptrs s; comms := comms s; val := val s;
     info := info s; session := session s; wgroup := wgroup s; heap := v;
     stream := stream s; mallocs := mallocs s; trace := trace s |}.

Definition set_stream (v : list (ptr * ptr)) (s : state) : state :=
  {| ints := ints s; ptrs := ptrs s; comms := comms s; val := val s;
     info := info s; session := session s; wgroup := wgroup s;
     heap := heap s; stream := v; mallocs := mallocs s; trace := trace s |}.

Definition count_malloc (s : state) : state :=
  {| ints := ints s; ptrs := ptrs s; comms := comms s; val := val s;
     info := info s; session := session s; wgroup := wgroup s;
     heap := heap s; stream := stream s; mallocs := S (mallocs s);
     trace := trace s |}.

Definition log (ev : event) (s : state) : state :=
  {| ints := ints s; ptrs := ptrs s; comms := comms s; val := val s;
     info := info s; session := session s; wgroup := wgroup s;
     heap := heap s; stream := stream s; mallocs := mallocs s;
     trace := trace s ++ [ev] |}.

(** ** Heap *)

Fixpoint update_block (f : block -> block) (p : ptr) (h : list block)
  : list block :=
  match h, p with
  | [], _ => []
  | b :: h', O => f b :: h'
  | b :: h', S p' => b :: update_block f p' h'
  end.

Definition live_block (h : list block) (p : ptr) : option block :=
  match nth_error h p with
  | Some b => if blk_live b then Some b else None
  | None => None
  end.

Definition write_block (v : option Z) (b : block) : block :=
  {| blk_kind := blk_kind b; blk_live := blk_live b; blk_val := v |}.

Definition kill_block (b : block) : block :=
  {| blk_kind := blk_kind b; blk_live := false; blk_val := blk_val b |}.

Definition fresh_block (k : MemoryKind) : block :=
  {| blk_kind := k; blk_live := true; blk_val := None |}.

(** One queued copy, carried out: the destination receives what the source
    holds. *)
Definition do_copy (h : list block) (c : ptr * ptr) : list block :=
  match live_block h (snd c), live_block h (fst c) with
  | Some src, Some _ => update_block (write_block (blk_val src)) (fst c) h
  | _, _ => h
  end.

(** ** Collective calls and the process monad *)

Inductive coll : Type -> Type :=
| CommCreateFromGroup (tag : string) (assert : option string) : coll comm
| Allreduce (op : mpi_op) (c : comm) (sent : Z) : coll Z
| CommDisconnect (c : comm) : coll unit.

Inductive halt : Type :=
| Return (code : Z)       (* [return code;] from [main] *)
| AssertFail              (* a failed [assert] *)
| Fault.                  (* invalid handle or pointer *)

(** A computation either finishes a statement, halts the process, or is
    inside a collective call and waits for the group. *)
Inductive res (A : Type) : Type :=
| Ret (a : A) (s : state)
| Stop (h : halt) (s : state)
| Yield (X : Type) (c : coll X) (s : state) (k : X -> res A).
Arguments Ret {A} a s.
Arguments Stop {A} h s.
Arguments Yield {A X} c s k.

Definition M (A : Type) : Type := state -> res A.

Definition ret {A : Type} (a : A) : M A := fun s => Ret a s.

Fixpoint bind_res {A B : Type} (r : res A) (f : A -> M B) : res B :=
  match r with
  | Ret a s => f a s
  | Stop h s => Stop h s
  | Yield c s k => Yield c s (fun x => bind_res (k x) f)
  end.

Definition bind {A B : Type} (m : M A) (f : A -> M B) : M B :=
  fun s => bind_res (m s) f.

Declare Scope proc_scope.
Delimit Scope proc_scope with proc.
Notation "x <- m ;; k" := (bind m (fun x => k))
  (at level 61, m at next level, right associativity) : proc_scope.
Notation "m ;; k" := (bind m (fun _ => k))
  (at level 61, right associativity) : proc_scope.
Open Scope proc_scope.

Definition get {A : Type} (f : state -> A) : M A := fun s => Ret (f s) s.
Definition var (x : ivar) : M Z := get (fun s => ints s x).
Definition assign (x : ivar) (v : Z) : M unit := fun s => Ret tt (set_int x v s).
Definition c_return {A : Type} (code : Z) : M A := fun s => Stop (Return code) s.
Definition skip : M unit := ret tt.

(** C truth of an [int]. *)
Definition truthy (z : Z) : bool :=
  match z with
  | Z0 => false
  | _ => true
  end.

(** ** 32-bit [int] *)

Definition INT_MAX : Z := 2147483647.

Definition wrap_int (z : Z) : Z := (z + 2 ^ 31) mod 2 ^ 32 - 2 ^ 31.

(** ** Info objects *)

Fixpoint info_get (key : string) (i : MPI_Info) : option string :=
  match i with
  | [] => None
  | (k, v) :: i' => if String.eqb k key then Some v else info_get key i'
  end.

Fixpoint info_remove (key : string) (i : MPI_Info) : MPI_Info :=
  match i with
  | [] => []
  | (k, v) :: i' =>
      if String.eqb k key then info_remove key i'
      else (k, v) :: info_remove key i'
  end.

Definition info_put (key value : string) (i : MPI_Info) : MPI_Info :=
  (key, value) :: info_remove key i.

Section Process.

(** The surroundings of the process that runs [main]. *)
Variable e : env.

(** ** MPI calls that complete locally *)

Definition MPI_Info_create : M unit :=
  fun s => Ret tt (log EvInfoCreate (set_info (Some []) s)).

Definition MPI_Info_set (key value : string) : M unit :=
  fun s =>
    match info s with
    | Some i =>
        Ret tt (log (EvInfoSet key value)
                  (set_info (Some (info_put key value i)) s))
    | None => Stop Fault s
    end.

Definition MPI_Info_free : M unit :=
  fun s =>
    match info s with
    | Some _ => Ret tt (log EvInfoFree (set_info None s))
    | None => Stop Fault s
    end.

Definition MPI_Session_init : M unit :=
  fun s =>
    match info s with
    | Some _ => Ret tt (log EvSessionInit (set_session true s))
    | None => Stop Fault s
    end.

(** The info of the session holds what the library supports. *)
Definition session_info : MPI_Info :=
  match supported_kinds e with
  | Some v => [("mpi_memory_alloc_kinds", v)]
  | None => []
  end.

Definition MPI_Session_get_info : M unit :=
  fun s =>
    if session s
    then Ret tt (log EvSessionGetInfo (set_info (Some session_info) s))
    else Stop Fault s.

(** [MPI_Info_get_string(info, key, &len, value, &flag)]: [len] is the size
    of the buffer on entry and the size the value needs, terminator
    included, on exit; [into_val] says whether [value] is [val] or NULL.
    Nothing is written when the size on entry is 0. *)
Definition MPI_Info_get_string (key : string) (into_val : bool) : M unit :=
  fun s =>
    match info s with
    | None => Stop Fault s
    | Some i =>
        let buflen := ints s len in
        match info_get key i with
        | None =>
            Ret tt (log (EvInfoGetString key buflen false) (set_int flag 0 s))
        | Some v =>
            let needed := Z.of_nat (S (String.length v)) in
            if into_val && (0 <? buflen)
            then
              match val s with
              | Some _ =>
                  Ret tt (log (EvInfoGetString key buflen true)
                            (set_int len needed (set_int flag 1
                               (set_val
                                  (Some (substring 0 (Z.to_nat (buflen - 1)) v))
                                  s))))
              | None => Stop Fault s
              end
            else Ret tt (log (EvInfoGetString key buflen true)
                           (set_int len needed (set_int flag 1 s)))
        end
    end.

Definition MPI_Group_from_session_pset (pset : string) : M unit :=
  fun s =>
    if session s
    then Ret tt (log (EvGroupFromSessionPset pset) (set_wgroup true s))
    else Stop Fault s.

Definition MPI_Group_free : M unit :=
  fun s =>
    if wgroup s
    then Ret tt (log EvGroupFree (set_wgroup false s))
    else Stop Fault s.

Definition MPI_Comm_size (c : cvar) (x : ivar) : M unit :=
  fun s =>
    match comms s c with
    | Some h =>
        Ret tt (log (EvCommSize h)
                  (set_int x (wrap_int (Z.of_nat (comm_size h))) s))
    | None => Stop Fault s
    end.

Definition MPI_Session_finalize : M unit :=
  fun s =>
    if session s
    then Ret tt (log EvSessionFinalize (set_session false s))
    else Stop Fault s.

(** ** MPI calls that involve the whole group *)

Definition MPI_Comm_create_from_group (tag : string) (c : cvar) : M unit :=
  fun s =>
    match wgroup s, info s with
    | true, Some i =>
        Yield (CommCreateFromGroup tag
                 (info_get "mpi_assert_memory_alloc_kinds" i)) s
          (fun h => Ret tt (log (EvCommCreate h) (set_comm c (Some h) s)))
    | _, _ => Stop Fault s
    end.

(** The buffer argument of a reduction: [&x] or the pointer [p]. *)
Inductive bufarg : Type :=
| AddrOf (x : ivar)
| Ptr (p : pvar).

Definition resolve (b : bufarg) (s : state)
  : option (address * MemoryKind * Z) :=
  match b with
  | AddrOf x => Some (Stack x, System, ints s x)
  | Ptr x =>
      match ptrs s x with
      | Some p =>
          match live_block (heap s) p with
          | Some blk =>
              match blk_val blk with
              | Some v => Some (Heap p, blk_kind blk, v)
              | None => None
              end
          | None => None
          end
      | None => None
      end
  end.

Definition write_address (a : address) (v : Z) (s : state) : state :=
  match a with
  | Stack x => set_int x v s
  | Heap p => set_heap (update_block (write_block (Some v)) p (heap s)) s
  end.

(** [MPI_Allreduce(MPI_IN_PLACE, buf, 1, MPI_INT, op, c)]. *)
Definition MPI_Allreduce_in_place (buf : bufarg) (op : mpi_op) (c : cvar)
  : M unit :=
  fun s =>
    match comms s c, resolve buf s with
    | Some h, Some (a, k, sent) =>
        Yield (Allreduce op h sent) s
          (fun recv =>
             Ret tt (log (EvAllreduce op a k h sent recv)
                       (write_address a recv s)))
    | _, _ => Stop Fault s
    end.

Definition MPI_Comm_disconnect (c : cvar) : M unit :=
  fun s =>
    match comms s c with
    | Some h =>
        Yield (CommDisconnect h) s
          (fun _ => Ret tt (log (EvCommDisconnect h) (set_comm c None s)))
    | None => Stop Fault s
    end.

(** ** C library *)

Definition allocate (k : MemoryKind) (x : pvar) (ev : ptr -> event)
  (s : state) : state :=
  let p := List.length (heap s) in
  log (ev p) (set_ptr x (Some p) (set_heap (heap s ++ [fresh_block k]) s)).

(** [x = malloc(size)]. *)
Definition malloc (x : pvar) (size : Z) : M unit :=
  fun s =>
    if nth (mallocs s) (malloc_ok e) true
    then Ret tt (allocate System x (fun p => EvMalloc size (Some p))
                   (count_malloc s))
    else Ret tt (log (EvMalloc size None) (set_ptr x None (count_malloc s))).

(** [free(x)]. *)
Definition free (x : pvar) : M unit :=
  fun s =>
    match ptrs s x with
    | None => Ret tt s
    | Some p =>
        match live_block (heap s) p with
        | Some b =>
            match blk_kind b with
            | System =>
                Ret tt (log (EvFree p (blk_val b))
                          (set_heap (update_block kill_block p (heap s)) s))
            | _ => Stop Fault s
            end
        | None => Stop Fault s
        end
    end.

(** [*x = v] in host code: device memory cannot be written from the
    host. *)
Definition store (x : pvar) (v : Z) : M unit :=
  fun s =>
    match ptrs s x with
    | Some p =>
        match live_block (heap s) p with
        | Some b =>
            match blk_kind b with
            | Device => Stop Fault (log (EvHostStore p Device v) s)
            | k =>
                Ret tt (log (EvHostStore p k v)
                          (set_heap (update_block (write_block (Some v)) p
                                       (heap s)) s))
            end
        | None => Stop Fault s
        end
    | None => Stop Fault s
    end.

(** [*x] in host code: device memory cannot be read from the host. *)
Definition load (x : pvar) : M Z :=
  fun s =>
    match ptrs s x with
    | Some p =>
        match live_block (heap s) p with
        | Some b =>
            match blk_kind b with
            | Device => Stop Fault (log (EvHostLoad p Device None) s)
            | k =>
                match blk_val b with
                | Some v => Ret v (log (EvHostLoad p k (Some v)) s)
                | None => Stop Fault s
                end
            end
        | None => Stop Fault s
        end
    | None => Stop Fault s
    end.

Definition assert (cond : bool) : M unit :=
  fun s => if cond then Ret tt s else Stop AssertFail s.

Definition printf (msg : string) : M unit :=
  fun s => Ret tt (log (EvPrintf msg) s).

(** ** CUDA runtime *)

(** [cudaMallocManaged(&x, sizeof(int), cudaMemAttachGlobal)]: on failure
    an error code is returned, which [main] does not look at, and [x] is
    left as it was. *)
Definition cudaMallocManaged (x : pvar) : M unit :=
  fun s =>
    if cuda_alloc_ok e
    then Ret tt (allocate Managed x (fun p => EvCudaMallocManaged (Some p)) s)
    else Ret tt (log (EvCudaMallocManaged None) s).

(** [cudaMalloc(&x, sizeof(int))], likewise. *)
Definition cudaMalloc (x : pvar) : M unit :=
  fun s =>
    if cuda_alloc_ok e
    then Ret tt (allocate Device x (fun p => EvCudaMalloc (Some p)) s)
    else Ret tt (log (EvCudaMalloc None) s).

(** [cudaMemcpyAsync(dst, src, sizeof(int), dir, 0)]: the copy is queued on
    stream 0; a bad pointer is an error code, which [main] does not look
    at. *)
Definition cudaMemcpyAsync (dst src : pvar) (dir : cudaMemcpyKind) : M unit :=
  fun s =>
    match ptrs s dst, ptrs s src with
    | Some d, Some r =>
        match live_block (heap s) d, live_block (heap s) r with
        | Some _, Some _ =>
            Ret tt (log (EvMemcpyAsync d r dir)
                      (set_stream (stream s ++ [(d, r)]) s))
        | _, _ => Ret tt s
        end
    | _, _ => Ret tt s
    end.

(** [cudaStreamSynchronize(cudaStreamDefault)]: returns when the queued
    copies are done. *)
Definition cudaStreamSynchronize : M unit :=
  fun s =>
    Ret tt (log EvStreamSynchronize
              (set_stream [] (set_heap (fold_left do_copy (stream s) (heap s)) s))).

Definition cudaFree (x : pvar) : M unit :=
  fun s =>
    match ptrs s x with
    | None => Ret tt s
    | Some p =>
        match live_block (heap s) p with
        | Some b =>
            match blk_kind b with
            | System => Ret tt s
            | _ =>
                Ret tt (log (EvCudaFree p (blk_val b))
                          (set_heap (update_block kill_block p (heap s)) s))
            end
        | None => Ret tt s
        end
    end.

(** ** The program *)

(** [val = valptr]: [val] is NULL when [valptr] is; what the fresh buffer
    holds is not looked at before [MPI_Info_get_string] fills it. *)
Definition val_gets_valptr : M unit :=
  fun s =>
    match ptrs s valptr with
    | Some _ => Ret tt (set_val (Some EmptyString) s)
    | None => Ret tt (set_val None s)
    end.

(** Lines 42-49: the loop over the tokens of [val]. *)
Definition while_strsep : M unit :=
  fun s =>
    let aware :=
      kinds_loop (val s)
        (ints s cuda_managed_aware, ints s cuda_device_aware) in
    Ret tt (set_val None
              (set_int cuda_device_aware (snd aware)
                 (set_int cuda_managed_aware (fst aware) s))).

(** Lines 10-21: the initial values of the variables of [main]. *)
Definition initial_state : state :=
  {| ints := fun _ => 0;
     ptrs := fun _ => None;
     comms := fun _ => None;
     val := None;
     info := None;
     session := false;
     wgroup := false;
     heap := [];
     stream := [];
     mallocs := 0%nat;
     trace := [] |}.

(** Lines 23-53: the session, and which kinds it supports. *)
Definition query_alloc_kinds : M unit :=
  MPI_Info_create ;;
  MPI_Info_set "mpi_memory_alloc_kinds" "system,cuda:device,cuda:managed" ;;
  MPI_Session_init ;;
  MPI_Info_free ;;
  MPI_Session_get_info ;;
  MPI_Info_get_string "mpi_memory_alloc_kinds" false ;;
  found <- var flag ;;
  (if truthy found then
     n <- var len ;;
     malloc valptr n ;;
     val_gets_valptr ;;
     v <- get val ;;
     match v with
     | None => c_return 1
     | Some _ =>
         MPI_Info_get_string "mpi_memory_alloc_kinds" true ;;
         while_strsep ;;
         free valptr
     end
   else skip) ;;
  MPI_Info_free.

(** Lines 55-65: the communicator for operations on system memory. *)
Definition create_system_comm : M unit :=
  MPI_Group_from_session_pset "mpi://WORLD" ;;
  MPI_Info_create ;;
  MPI_Info_set "mpi_assert_memory_alloc_kinds" "system" ;;
  MPI_Comm_create_from_group "org.mpi-side-doc.mem-kind.example.system"
    system_comm ;;
  MPI_Info_free ;;
  MPI_Comm_size system_comm nranks.

(** Lines 67-103: check for CUDA awareness. *)
Definition check_cuda_awareness : M unit :=
  MPI_Allreduce_in_place (AddrOf cuda_managed_aware) MPI_LAND system_comm ;;
  managed <- var cuda_managed_aware ;;
  (if truthy managed then
     MPI_Info_create ;;
     MPI_Info_set "mpi_assert_memory_alloc_kinds" "cuda:managed" ;;
     MPI_Comm_create_from_group
       "org.mpi-side-doc.mem-kind.example.cuda.managed" cuda_managed_comm ;;
     MPI_Info_free
   else
     MPI_Allreduce_in_place (AddrOf cuda_device_aware) MPI_LAND system_comm ;;
     device <- var cuda_device_aware ;;
     if truthy device then
       MPI_Info_create ;;
       MPI_Info_set "mpi_assert_memory_alloc_kinds" "cuda:device" ;;
       MPI_Comm_create_from_group
         "org.mpi-side-doc.mem-kind.example.cuda.device" cuda_device_comm ;;
       MPI_Info_free
     else
       printf ("Warning: cuda alloc kind not supported" ++ newline)) ;;
  MPI_Group_free.

(** Lines 105-157: execute according to the level of CUDA awareness. *)
Definition execute : M unit :=
  managed <- var cuda_managed_aware ;;
  if truthy managed then
    cudaMallocManaged managed_buf ;;
    store managed_buf 1 ;;
    MPI_Allreduce_in_place (Ptr managed_buf) MPI_SUM cuda_managed_comm ;;
    v <- load managed_buf ;;
    n <- var nranks ;;
    assert (v =? n) ;;
    cudaFree managed_buf
  else
    malloc system_buf 4 ;;
    store system_buf 1 ;;
    cudaMalloc device_buf ;;
    cudaMemcpyAsync device_buf system_buf cudaMemcpyHostToDevice ;;
    cudaStreamSynchronize ;;
    device <- var cuda_device_aware ;;
    (if truthy device then
       MPI_Allreduce_in_place (Ptr device_buf) MPI_SUM cuda_device_comm ;;
       v <- load device_buf ;;
       n <- var nranks ;;
       assert (v =? n)
     else
       cudaMemcpyAsync system_buf device_buf cudaMemcpyDeviceToHost ;;
       cudaStreamSynchronize ;;
       MPI_Allreduce_in_place (Ptr system_buf) MPI_SUM system_comm ;;
       cudaMemcpyAsync device_buf system_buf cudaMemcpyHostToDevice ;;
       cudaStreamSynchronize ;;
       v <- load system_buf ;;
       n <- var nranks ;;
       assert (v =? n)) ;;
    cudaFree device_buf ;;
    free system_buf.

(** Lines 159-167. *)
Definition teardown : M unit :=
  cm <- get (fun s => comms s cuda_managed_comm) ;;
  (match cm with
   | Some _ => MPI_Comm_disconnect cuda_managed_comm
   | None => skip
   end) ;;
  cd <- get (fun s => comms s cuda_device_comm) ;;
  (match cd with
   | Some _ => MPI_Comm_disconnect cuda_device_comm
   | None => skip
   end) ;;
  MPI_Comm_disconnect system_comm ;;
  MPI_Session_finalize ;;
  c_return 0.

Definition main : M unit :=
  query_alloc_kinds ;;
  create_system_comm ;;
  check_cuda_awareness ;;
  execute ;;
  teardown.

End Process.

(** * The group of processes *)

(** A process is [main] under way. *)
Definition proc : Type := res unit.

Definition start (e : env) : proc := main e initial_state.

(** What must agree among the callers of one collective. *)
Inductive signature : Type :=
| SigCommCreate (tag : string) (assert : option string)
| SigAllreduce (op : mpi_op) (c : comm)
| SigCommDisconnect (c : comm).

Definition option_string_eqb (a b : option string) : bool :=
  match a, b with
  | Some x, Some y => String.eqb x y
  | None, None => true
  | _, _ => false
  end.

Definition signature_eqb (a b : signature) : bool :=
  match a, b with
  | SigCommCreate t1 a1, SigCommCreate t2 a2 =>
      String.eqb t1 t2 && option_string_eqb a1 a2
  | SigAllreduce o1 c1, SigAllreduce o2 c2 => mpi_op_eqb o1 o2 && comm_eqb c1 c2
  | SigCommDisconnect c1, SigCommDisconnect c2 => comm_eqb c1 c2
  | _, _ => false
  end.

Definition sig_of {X : Type} (c : coll X) : signature :=
  match c with
  | CommCreateFromGroup tag a => SigCommCreate tag a
  | Allreduce op h _ => SigAllreduce op h
  | CommDisconnect h => SigCommDisconnect h
  end.

(** The [int] a caller contributes (0 when the call carries none). *)
Definition sent_of {X : Type} (c : coll X) : Z :=
  match c with
  | Allreduce _ _ sent => sent
  | _ => 0
  end.

Definition reduce (op : mpi_op) (sents : list Z) : Z :=
  match op with
  | MPI_LAND => if forallb truthy sents then 1 else 0
  | MPI_SUM => wrap_int (fold_right Z.add 0 sents)
  end.

(** What a caller gets back once every process of the group, with the
    contributions [sents] in rank order, has entered the call. *)
Definition reply {X : Type} (c : coll X) (sents : list Z) : X :=
  match c in coll T return T with
  | CommCreateFromGroup tag a =>
      {| comm_tag := tag; comm_assert := a; comm_size := List.length sents |}
  | Allreduce op _ _ => reduce op sents
  | CommDisconnect _ => tt
  end.

Definition pending (p : proc) : option signature :=
  match p with
  | Yield c _ _ => Some (sig_of c)
  | _ => None
  end.

Definition offered (p : proc) : Z :=
  match p with
  | Yield c _ _ => sent_of c
  | _ => 0
  end.

Definition resume (sents : list Z) (p : proc) : proc :=
  match p with
  | Yield c _ k => k (reply c sents)
  | _ => p
  end.

Definition waits_for (sg : signature) (p : proc) : bool :=
  match pending p with
  | Some sg' => signature_eqb sg sg'
  | None => false
  end.

(** One collective completes when every process of the group is inside
    the same call. *)
Definition collective_round (ps : list proc) : option (list proc) :=
  match ps with
  | [] => None
  | p0 :: _ =>
      match pending p0 with
      | Some sg =>
          if forallb (waits_for sg) ps
          then Some (map (resume (map offered ps)) ps)
          else None
      | None => None
      end
  end.

(** How a process ends up. *)
Inductive status : Type :=
| Exited (code : Z) (s : state)
| Aborted (h : halt) (s : state)
| Blocked (sg : signature) (s : state).

Definition status_of (p : proc) : status :=
  match p with
  | Ret _ s => Exited 0 s
  | Stop (Return code) s => Exited code s
  | Stop h s => Aborted h s
  | Yield c s _ => Blocked (sig_of c) s
  end.

(** Rounds are run while one can complete; [None] is out of fuel. *)
Fixpoint run_world (fuel : nat) (ps : list proc) : option (list status) :=
  match collective_round ps with
  | None => Some (map status_of ps)
  | Some ps' =>
      match fuel with
      | O => None
      | S fuel' => run_world fuel' ps'
      end
  end.

(** Enough rounds for [main], which has eight collective calls in its
    text (and passes at most seven of them on any one path). *)
Definition rounds_of_main : nat := 8.

Definition run (envs : list env) : option (list status) :=
  run_world rounds_of_main (map start envs).

Definition final_state (st : status) : state :=
  match st with
  | Exited _ s | Aborted _ s | Blocked _ s => s
  end.

Definition exit_code (st : status) : option Z :=
  match st with
  | Exited code _ => Some code
  | _ => None
  end.

(** ** One process seen from inside the group *)

(** What the group gives back in one round: how many they are, and the
    AND and the sum of what they contributed. *)
Record answer : Type := {
  members : nat;
  conj : Z;
  total : Z
}.

Definition summary (sents : list Z) : answer :=
  {| members := List.length sents;
     conj := reduce MPI_LAND sents;
     total := reduce MPI_SUM sents |}.

Definition respond {X : Type} (c : coll X) (a : answer) : X :=
  match c in coll T return T with
  | CommCreateFromGroup tag asserted =>
      {| comm_tag := tag; comm_assert := asserted; comm_size := members a |}
  | Allreduce MPI_LAND _ _ => conj a
  | Allreduce MPI_SUM _ _ => total a
  | CommDisconnect _ => tt
  end.

Definition answered (a : answer) (p : proc) : proc :=
  match p with
  | Yield c _ k => k (respond c a)
  | _ => p
  end.

(** [play answers p] passes [p] through the collectives that are answered
    by [answers]: the calls it made, with what it contributed to each,
    and where it stands afterwards. *)
Fixpoint play (answers : list answer) (p : proc)
  : list (option signature * Z) * proc :=
  match answers with
  | [] => ([], p)
  | a :: rest =>
      let (calls, q) := play rest (answered a p) in
      ((pending p, offered p) :: calls, q)
  end.

(** Every process is inside the call the round is about, and the round's
    contributions are theirs. *)
Fixpoint aligned (rounds : list (list Z)) (ps : list proc) : Prop :=
  match rounds with
  | [] => Forall (fun p => pending p = None) ps
  | sents :: rest =>
      (exists sg, Forall (fun p => pending p = Some sg) ps)
      /\ map offered ps = sents
      /\ aligned rest (map (resume sents) ps)
  end.

(** * What a run of the group looks like *)

(** The two flags of a process after lines 29-53:
    ([cuda_managed_aware], [cuda_device_aware]). *)
Definition capabilities (e : env) : Z * Z :=
  match supported_kinds e with
  | Some v => kinds_loop (Some v) (0, 0)
  | None => (0, 0)
  end.

Definition managed_aware (e : env) : Z := fst (capabilities e).
Definition device_aware (e : env) : Z := snd (capabilities e).

(** A kind is in the capability set of a process when its flag is set;
    there is no flag for system memory, which every process has. *)
Definition supports (e : env) (k : MemoryKind) : bool :=
  match k with
  | Managed => truthy (managed_aware e)
  | Device => truthy (device_aware e)
  | System => true
  end.

Definition common (envs : list env) (k : MemoryKind) : bool :=
  forallb (fun e => supports e k) envs.

(** Managed if every process has it, else Device if every process has it,
    else System. *)
Definition negotiation (envs : list env) : MemoryKind :=
  if common envs Managed then Managed
  else if common envs Device then Device
  else System.

(** The kind a process goes by after the negotiation: how lines 106 and
    131 read the two flags. *)
Definition negotiated (s : state) : MemoryKind :=
  if truthy (ints s cuda_managed_aware) then Managed
  else if truthy (ints s cuda_device_aware) then Device
  else System.

(** Every call of [malloc] returns memory, and so does the CUDA
    allocation. *)
Definition allocs_ok (e : env) : bool :=
  forallb (fun b => b) (malloc_ok e) && cuda_alloc_ok e.

(** The buffer for the value of [mpi_memory_alloc_kinds] cannot be had. *)
Definition parse_alloc_fails (e : env) : bool :=
  match supported_kinds e with
  | Some _ => negb (nth 0 (malloc_ok e) true)
  | None => false
  end.

Definition example_tag (k : MemoryKind) : string :=
  match k with
  | System => "org.mpi-side-doc.mem-kind.example.system"
  | Device => "org.mpi-side-doc.mem-kind.example.cuda.device"
  | Managed => "org.mpi-side-doc.mem-kind.example.cuda.managed"
  end.

(** The communicator [main] creates for kind [k] in a group of [n]. *)
Definition comm_for (k : MemoryKind) (n : nat) : comm :=
  {| comm_tag := example_tag k;
     comm_assert := Some (kind_ident k);
     comm_size := n |}.

Definition zero (e : env) : Z := 0.
Definition one (e : env) : Z := 1.

(** The collectives of each of the three paths, with what a process
    contributes to each. The Device path ends at the sum reduction: the
    process does not get past line 137. *)
Definition plan (k : MemoryKind) (n : nat) : list (signature * (env -> Z)) :=
  let create k := (SigCommCreate (example_tag k) (Some (kind_ident k)), zero) in
  let land f := (SigAllreduce MPI_LAND (comm_for System n), f) in
  let sum k := (SigAllreduce MPI_SUM (comm_for k n), one) in
  let disconnect k := (SigCommDisconnect (comm_for k n), zero) in
  match k with
  | Managed =>
      [create System; land managed_aware; create Managed; sum Managed;
       disconnect Managed; disconnect System]
  | Device =>
      [create System; land managed_aware; land device_aware; create Device;
       sum Device]
  | System =>
      [create System; land managed_aware; land device_aware; sum System;
       disconnect System]
  end.

Definition rounds (envs : list env) : list (list Z) :=
  map (fun pc => map (snd pc) envs)
    (plan (negotiation envs) (List.length envs)).

(** Where process [e] of the group [envs] ends up. *)
Definition outcome (envs : list env) (e : env) : status :=
  status_of (snd (play (map summary (rounds envs)) (start e))).

(** How a process whose allocations succeed halts: by the [return 0] of
    line 167, or, when Device was agreed on, at the load of line 137. *)
Definition last_halt (k : MemoryKind) : halt :=
  match k with
  | Device => Fault
  | _ => Return 0
  end.

Definition ending (k : MemoryKind) (s : state) : status :=
  match k with
  | Device => Aborted Fault s
  | _ => Exited 0 s
  end.

(** ** The events of a process whose allocations succeed *)


Definition query_events (kinds : option string) : list event :=
  [EvInfoCreate;
   EvInfoSet "mpi_memory_alloc_kinds" "system,cuda:device,cuda:managed";
   EvSessionInit; EvInfoFree; EvSessionGetInfo]
  ++ match kinds with
     | Some v =>
         let needed := Z.of_nat (S (String.length v)) in
         [EvInfoGetString "mpi_memory_alloc_kinds" 0 true;
          EvMalloc needed (Some 0%nat);
          EvInfoGetString "mpi_memory_alloc_kinds" needed true;
          EvFree 0%nat None]
     | None => [EvInfoGetString "mpi_memory_alloc_kinds" 0 false]
     end
  ++ [EvInfoFree].

Definition create_events (k : MemoryKind) (n : nat) : list event :=
  [EvInfoCreate;
   EvInfoSet "mpi_assert_memory_alloc_kinds" (kind_ident k);
   EvCommCreate (comm_for k n);
   EvInfoFree].

Definition baseline_events (n : nat) : list event :=
  EvGroupFromSessionPset "mpi://WORLD" :: create_events System n
  ++ [EvCommSize (comm_for System n)].

Definition negotiation_events (m d : Z) (n : nat) (k : MemoryKind)
  : list event :=
  let land x sent recv :=
    EvAllreduce MPI_LAND (Stack x) System (comm_for System n) sent recv in
  match k with
  | Managed => land cuda_managed_aware m 1 :: create_events Managed n
  | Device =>
      land cuda_managed_aware m 0 :: land cuda_device_aware d 1
      :: create_events Device n
  | System =>
      [land cuda_managed_aware m 0; land cuda_device_aware d 0;
       EvPrintf ("Warning: cuda alloc kind not supported" ++ newline)]
  end ++ [EvGroupFree].

(** [b] is the first free block. *)
Definition execution_events (b : ptr) (n : nat) (k : MemoryKind)
  : list event :=
  let total := wrap_int (Z.of_nat n) in
  match k with
  | Managed =>
      [EvCudaMallocManaged (Some b);
       EvHostStore b Managed 1;
       EvAllreduce MPI_SUM (Heap b) Managed (comm_for Managed n) 1 total;
       EvHostLoad b Managed (Some total);
       EvCudaFree b (Some total)]
  | Device =>
      [EvMalloc 4 (Some b);
       EvHostStore b System 1;
       EvCudaMalloc (Some (S b));
       EvMemcpyAsync (S b) b cudaMemcpyHostToDevice;
       EvStreamSynchronize;
       EvAllreduce MPI_SUM (Heap (S b)) Device (comm_for Device n) 1 total;
       EvHostLoad (S b) Device None]
  | System =>
      [EvMalloc 4 (Some b);
       EvHostStore b System 1;
       EvCudaMalloc (Some (S b));
       EvMemcpyAsync (S b) b cudaMemcpyHostToDevice;
       EvStreamSynchronize;
       EvMemcpyAsync b (S b) cudaMemcpyDeviceToHost;
       EvStreamSynchronize;
       EvAllreduce MPI_SUM (Heap b) System (comm_for System n) 1 total;
       EvMemcpyAsync (S b) b cudaMemcpyHostToDevice;
       EvStreamSynchronize;
       EvHostLoad b System (Some total);
       EvCudaFree (S b) (Some total);
       EvFree b (Some total)]
  end.

Definition teardown_events (n : nat) (k : MemoryKind) : list event :=
  match k with
  | Managed =>
      [EvCommDisconnect (comm_for Managed n);
       EvCommDisconnect (comm_for System n); EvSessionFinalize]
  | Device => []
  | System => [EvCommDisconnect (comm_for System n); EvSessionFinalize]
  end.

Definition first_free (kinds : option string) : ptr :=
  match kinds with Some _ => 1%nat | None => 0%nat end.

Definition expected_trace (e : env) (n : nat) (k : MemoryKind) : list event :=
  query_events (supported_kinds e)
  ++ baseline_events n
  ++ negotiation_events (managed_aware e) (device_aware e) n k
  ++ execution_events (first_free (supported_kinds e)) n k
  ++ teardown_events n k.

(** The blocks of the heap at the end: the buffer for the value when the
    key is there, then the buffers of the path. *)
Definition expected_heap (kinds : option string) (n : nat) (k : MemoryKind)
  : list block :=
  let total := Some (wrap_int (Z.of_nat n)) in
  let block k live v := {| blk_kind := k; blk_live := live; blk_val := v |} in
  (match kinds with
   | Some _ => [block System false None]
   | None => []
   end
   ++ match k with
      | Managed => [block Managed false total]
      | Device => [block System true (Some 1); block Device true total]
      | System => [block System false total; block Device false total]
      end)%list.

(** The communicator handles at the end. *)
Definition expected_comms (n : nat) (k : MemoryKind) (c : cvar)
  : option comm :=
  match k, c with
  | Device, system_comm => Some (comm_for System n)
  | Device, cuda_device_comm => Some (comm_for Device n)
  | _, _ => None
  end.

(** The last state of a process of a group of [n] that went by kind
    [k]. *)
Record finished (e : env) (n : nat) (k : MemoryKind) (s : state) : Prop := {
  fin_trace : trace s = expected_trace e n k;
  fin_negotiated : negotiated s = k;
  fin_nranks : ints s nranks = wrap_int (Z.of_nat n);
  fin_managed_buf :
    ptrs s managed_buf
    = match k with
      | Managed => Some (first_free (supported_kinds e))
      | _ => None
      end;
  fin_system_buf :
    ptrs s system_buf
    = match k with
      | Managed => None
      | _ => Some (first_free (supported_kinds e))
      end;
  fin_device_buf :
    ptrs s device_buf
    = match k with
      | Managed => None
      | _ => Some (S (first_free (supported_kinds e)))
      end;
  fin_stream : stream s = [];
  fin_heap : heap s = expected_heap (supported_kinds e) n k;
  fin_info : info s = None;
  fin_wgroup : wgroup s = false;
  fin_session : session s = match k with Device => true | _ => false end;
  fin_comms : forall c, comms s c = expected_comms n k c
}.

(** ** Tokens of a comma-separated value *)

(** The pieces of [s] between the occurrences of [d]. *)
Fixpoint split_on (d : ascii) (s : string) : list string :=
  match s with
  | EmptyString => [EmptyString]
  | String c s' =>
      if Ascii.eqb c d then EmptyString :: split_on d s'
      else match split_on d s' with
           | tok :: toks => String c tok :: toks
           | [] => [String c EmptyString]
           end
  end.

Fixpoint casefold (s : string) : string :=
  match s with
  | EmptyString => EmptyString
  | String c s' => String (tolower c) (casefold s')
  end.

Definition isspace (c : ascii) : bool :=
  (uchar c =? 32) || ((9 <=? uchar c) && (uchar c <=? 13)).

Fixpoint skip_spaces (s : string) : string :=
  match s with
  | EmptyString => EmptyString
  | String c s' => if isspace c then skip_spaces s' else s
  end.

Fixpoint string_rev (s : string) : string :=
  match s with
  | EmptyString => EmptyString
  | String c s' => string_rev s' ++ String c EmptyString
  end.

(** [s] without the white space at its two ends. *)
Definition trim (s : string) : string :=
  string_rev (skip_spaces (string_rev (skip_spaces s))).

(** No NUL inside: what a C string is. *)
Fixpoint nul_free (s : string) : bool :=
  match s with
  | EmptyString => true
  | String c s' => negb (uchar c =? 0) && nul_free s'
  end.

(** The comparison of lines 43 and 46. *)
Definition names_kind (k : MemoryKind) (tok : string) : bool :=
  strcasecmp tok (kind_ident k) =? 0.

(** Some token of the value is the identifier of [k], case apart. *)
Definition advertised (kinds : option string) (k : MemoryKind) : Prop :=
  match kinds with
  | Some v =>
      exists tok, In tok (split_on "," v) /\ casefold tok = kind_ident k
  | None => False
  end.

(** The same, with the tokens trimmed first. *)
Definition advertised_trimmed (kinds : option string) (k : MemoryKind)
  : Prop :=
  match kinds with
  | Some v =>
      exists tok,
        In tok (split_on "," v) /\ casefold (trim tok) = kind_ident k
  | None => False
  end.

(** ** What is read off a trace *)

Definition created (tr : list event) : list comm :=
  flat_map (fun ev => match ev with EvCommCreate c => [c] | _ => [] end) tr.

Definition released (tr : list event) : list comm :=
  flat_map (fun ev => match ev with EvCommDisconnect c => [c] | _ => [] end)
    tr.

(** The reductions: operation, buffer, kind of the buffer, communicator. *)
Definition reductions (tr : list event)
  : list (mpi_op * address * MemoryKind * comm) :=
  flat_map (fun ev =>
              match ev with
              | EvAllreduce op buf k c _ _ => [(op, buf, k, c)]
              | _ => []
              end) tr.

(** The sum reductions: buffer, its kind, what went in, what came out. *)
Definition sum_reductions (tr : list event)
  : list (address * MemoryKind * Z * Z) :=
  flat_map (fun ev =>
              match ev with
              | EvAllreduce MPI_SUM buf k _ sent recv => [(buf, k, sent, recv)]
              | _ => []
              end) tr.

(** The AND reductions: the flag, and what came out. *)
Definition land_reductions (tr : list event) : list (address * Z) :=
  flat_map (fun ev =>
              match ev with
              | EvAllreduce MPI_LAND buf _ _ _ recv => [(buf, recv)]
              | _ => []
              end) tr.

Definition host_stores (tr : list event) : list (ptr * MemoryKind * Z) :=
  flat_map (fun ev =>
              match ev with
              | EvHostStore p k v => [(p, k, v)]
              | _ => []
              end) tr.

Definition host_loads (tr : list event)
  : list (ptr * MemoryKind * option Z) :=
  flat_map (fun ev =>
              match ev with
              | EvHostLoad p k v => [(p, k, v)]
              | _ => []
              end) tr.

Definition is_allreduce (ev : event) : bool :=
  match ev with EvAllreduce _ _ _ _ _ _ => true | _ => false end.

Definition is_land (ev : event) : bool :=
  match ev with EvAllreduce MPI_LAND _ _ _ _ _ => true | _ => false end.

Definition is_disconnect (ev : event) : bool :=
  match ev with EvCommDisconnect _ => true | _ => false end.

Definition is_finalize (ev : event) : bool :=
  match ev with EvSessionFinalize => true | _ => false end.

(** An operation of the whole group. *)
Definition is_collective (ev : event) : bool :=
  match ev with
  | EvCommCreate _ | EvAllreduce _ _ _ _ _ _ | EvCommDisconnect _ => true
  | _ => false
  end.

Definition creates_kind (k : MemoryKind) (ev : event) : bool :=
  match ev with
  | EvCommCreate c =>
      match asserted_kind c with
      | Some k' => MemoryKind_eqb k k'
      | None => false
      end
  | _ => false
  end.

Definition creates_accelerator (ev : event) : bool :=
  creates_kind Managed ev || creates_kind Device ev.

(** No [q] event is followed by a [p] event. *)
Fixpoint all_before (p q : event -> bool) (tr : list event) : bool :=
  match tr with
  | [] => true
  | ev :: tr' => (negb (q ev) || negb (existsb p tr')) && all_before p q tr'
  end.

(** Host code reads or writes device memory. *)
Definition host_touches_device (ev : event) : bool :=
  match ev with
  | EvHostLoad _ Device _ | EvHostStore _ Device _ => true
  | _ => false
  end.

(** The event uses block [p]. *)
Definition touches (p : ptr) (ev : event) : bool :=
  match ev with
  | EvHostLoad q _ _ | EvHostStore q _ _ | EvFree q _ | EvCudaFree q _
  | EvAllreduce _ (Heap q) _ _ _ _ => Nat.eqb p q
  | EvMemcpyAsync d s _ => Nat.eqb p d || Nat.eqb p s
  | _ => false
  end.

(** The event changes what block [p] holds. *)
Definition writes (p : ptr) (ev : event) : bool :=
  match ev with
  | EvHostStore q _ _ | EvAllreduce _ (Heap q) _ _ _ _
  | EvMemcpyAsync q _ _ => Nat.eqb p q
  | _ => false
  end.

Definition frees (p : ptr) (ev : event) : bool :=
  match ev with
  | EvFree q _ | EvCudaFree q _ => Nat.eqb p q
  | _ => false
  end.

(** What a block holds when it is freed. *)
Definition held_at_free (ev : event) : option Z :=
  match ev with
  | EvFree _ v | EvCudaFree _ v => v
  | _ => None
  end.

(** No block with a copy [in_flight] is used before the stream is
    synchronized, and no copy is left in flight at the end. *)
Fixpoint synchronized (in_flight : list ptr) (tr : list event) : bool :=
  match tr with
  | [] => match in_flight with [] => true | _ => false end
  | EvMemcpyAsync d s _ :: tr' => synchronized (d :: s :: in_flight) tr'
  | EvStreamSynchronize :: tr' => synchronized [] tr'
  | ev :: tr' =>
      negb (existsb (fun p => touches p ev) in_flight)
      && synchronized in_flight tr'
  end.

(** Every asynchronous copy is the event just before a synchronization. *)
Fixpoint copies_synced (tr : list event) : bool :=
  match tr with
  | [] => true
  | EvMemcpyAsync _ _ _ :: tr' =>
      match tr' with
      | EvStreamSynchronize :: _ => copies_synced tr'
      | _ => false
      end
  | _ :: tr' => copies_synced tr'
  end.

(** The buffer the sum reduction of the path of kind [k] works on. *)
Definition reduced_buffer (k : MemoryKind) : pvar :=
  match k with
  | Managed => managed_buf
  | Device => device_buf
  | System => system_buf
  end.

(** The buffer line 109 or 123 sets to 1. *)
Definition initialized_buffer (k : MemoryKind) : pvar :=
  match k with
  | Managed => managed_buf
  | _ => system_buf
  end.

(** Lines 23-53, from the initial values of the variables. *)
Definition after_query (e : env) : res unit :=
  query_alloc_kinds e initial_state.

(** [tame p n]: [p] passes at most [n] collectives, whatever they answer,
    and does not return 1. *)
Fixpoint tame {A : Type} (p : res A) (n : nat) : Prop :=
  match p with
  | Ret _ _ => True
  | Stop h _ => h <> Return 1
  | Yield _ _ k =>
      match n with
      | O => False
      | S n' => forall x, tame (k x) n'
      end
  end.

(** [within p n]: [p] passes at most [n] collectives. *)
Fixpoint within {A : Type} (p : res A) (n : nat) : Prop :=
  match p with
  | Yield _ _ k =>
      match n with
      | O => False
      | S n' => forall x, within (k x) n'
      end
  | _ => True
  end.

(** Lines 55-167. *)
Definition after_query_main (e : env) : M unit :=
  create_system_comm ;;
  check_cuda_awareness ;;
  execute e ;;
  teardown.

(** ** Some processes *)

Definition all_kinds : env :=
  {| supported_kinds := Some "system,cuda:device,cuda:managed";
     malloc_ok := [];
     cuda_alloc_ok := true |}.

Definition device_only : env :=
  {| supported_kinds := Some "system,cuda:device";
     malloc_ok := [true; true];
     cuda_alloc_ok := true |}.

Definition system_only : env :=
  {| supported_kinds := Some "system";
     malloc_ok := [];
     cuda_alloc_ok := true |}.

Definition no_key : env :=
  {| supported_kinds := None; malloc_ok := []; cuda_alloc_ok := true |}.

Definition mixed_case : env :=
  {| supported_kinds := Some "System,CUDA:Device,other";
     malloc_ok := [true];
     cuda_alloc_ok := true |}.

Definition padded : env :=
  {| supported_kinds := Some "system, cuda:device";
     malloc_ok := [];
     cuda_alloc_ok := true |}.

Definition no_memory : env :=
  {| supported_kinds := Some "system,cuda:managed";
     malloc_ok := [false];
     cuda_alloc_ok := true |}.

Definition no_buffer : env :=
  {| supported_kinds := Some "cuda:device";
     malloc_ok := [true; false];
     cuda_alloc_ok := true |}.

Definition no_device_memory : env :=
  {| supported_kinds := Some "system";
     malloc_ok := [];
     cuda_alloc_ok := false |}.

(** ** Resources and failures *)

(** The malloc of line 122 returns NULL: it is the second call of [malloc]
    when the key is there, the first when it is not. *)
Definition buffer_alloc_fails (e : env) : bool :=
  negb (nth (first_free (supported_kinds e)) (malloc_ok e) true).

(** The collectives of a path that come before the sum reduction. *)
Definition negotiation_plan (k : MemoryKind) (n : nat)
  : list (signature * (env -> Z)) :=
  firstn (match k with Device => 4 | _ => 3 end)%nat (plan k n).

Definition negotiation_rounds (envs : list env) : list (list Z) :=
  map (fun pc => map (snd pc) envs)
    (negotiation_plan (negotiation envs) (List.length envs)).

(** Every process is inside the call the round is about, round after
    round, and after the last of them no collective can complete. *)
Fixpoint aligned_until (rounds : list (list Z)) (ps : list proc) : Prop :=
  match rounds with
  | [] => collective_round ps = None
  | sents :: rest =>
      (exists sg, Forall (fun p => pending p = Some sg) ps)
      /\ map offered ps = sents
      /\ aligned_until rest (map (resume sents) ps)
  end.

(** ** More that is read off a trace *)

(** The blocks allocated, with their kinds. *)
Definition allocated (tr : list event) : list (ptr * MemoryKind) :=
  flat_map (fun ev =>
              match ev with
              | EvMalloc _ (Some p) => [(p, System)]
              | EvCudaMalloc (Some p) => [(p, Device)]
              | EvCudaMallocManaged (Some p) => [(p, Managed)]
              | _ => []
              end) tr.

Definition is_free (ev : event) : bool :=
  match ev with EvFree _ _ | EvCudaFree _ _ => true | _ => false end.

(** How a block of kind [k] is given back: [free] for what [malloc]
    returned, [cudaFree] for what the CUDA runtime did. *)
Definition release_of (p : ptr) (k : MemoryKind) (v : option Z) : event :=
  match k with
  | System => EvFree p v
  | _ => EvCudaFree p v
  end.




(** The collective an event is the completion of. *)
Definition collective_call (ev : event) : option signature :=
  match ev with
  | EvCommCreate c => Some (SigCommCreate (comm_tag c) (comm_assert c))
  | EvAllreduce op _ _ c _ _ => Some (SigAllreduce op c)
  | EvCommDisconnect c => Some (SigCommDisconnect c)
  | _ => None
  end.

Definition collectives (tr : list event) : list signature :=
  flat_map (fun ev =>
              match collective_call ev with Some sg => [sg] | None => [] end)
    tr.

(** The copies, in the order they are queued: destination, source,
    direction. *)
Definition copies (tr : list event) : list (ptr * ptr * cudaMemcpyKind) :=
  flat_map (fun ev =>
              match ev with
              | EvMemcpyAsync d s dir => [(d, s, dir)]
              | _ => []
              end) tr.

Definition printed (tr : list event) : list string :=
  flat_map (fun ev => match ev with EvPrintf msg => [msg] | _ => [] end) tr.

Definition is_session_init (ev : event) : bool :=
  match ev with EvSessionInit => true | _ => false end.

Definition is_group_free (ev : event) : bool :=
  match ev with EvGroupFree => true | _ => false end.

Definition is_comm_create (ev : event) : bool :=
  match ev with EvCommCreate _ => true | _ => false end.

Definition is_group_made (ev : event) : bool :=
  match ev with EvGroupFromSessionPset _ => true | _ => false end.

(** A call that needs the session. *)
Definition uses_session (ev : event) : bool :=
  match ev with
  | EvSessionGetInfo | EvGroupFromSessionPset _ | EvCommCreate _
  | EvCommSize _ | EvAllreduce _ _ _ _ _ _ | EvCommDisconnect _ => true
  | _ => false
  end.

(** Process [e] does not get to the sum reduction of path [k]: it lacks
    the managed buffer (line 108), the host buffer (line 122), or, where
    the reduction is on it, the device buffer (line 126). *)
Definition stalls (k : MemoryKind) (e : env) : bool :=
  match k with
  | Managed => negb (cuda_alloc_ok e)
  | Device => buffer_alloc_fails e || negb (cuda_alloc_ok e)
  | System => buffer_alloc_fails e
  end.

(** The group gets to the end of [main]: every process has its flags and
    its buffers, and the kind agreed on is not Device. *)
Definition completes (envs : list env) : bool :=
  forallb (fun e => negb (parse_alloc_fails e)) envs
  && negb (MemoryKind_eqb (negotiation envs) Device)
  && forallb (fun e => negb (stalls (negotiation envs) e)) envs.

(** The process is inside the sum reduction of path [k]. *)
Definition at_sum (k : MemoryKind) (n : nat) (q : proc) : Prop :=
  exists s c, q = Yield (Allreduce MPI_SUM (comm_for k n) 1) s c.

(** Line 109: the store through [managed_buf], which is NULL. *)
Definition stops_at_line_109 (q : proc) : Prop :=
  exists s,
    q = Stop Fault s
    /\ ptrs s managed_buf = None
    /\ host_stores (trace s) = []
    /\ last (trace s) EvGroupFree = EvCudaMallocManaged None.

(** Line 123: the store through [system_buf], which is NULL. *)
Definition stops_at_line_123 (q : proc) : Prop :=
  exists s,
    q = Stop Fault s
    /\ ptrs s system_buf = None
    /\ host_stores (trace s) = []
    /\ last (trace s) EvGroupFree = EvMalloc 4 None.

(** Line 134: the reduction on [device_buf], which is NULL. *)
Definition stops_at_line_134 (q : proc) : Prop :=
  exists s,
    q = Stop Fault s
    /\ ptrs s device_buf = None
    /\ copies (trace s) = []
    /\ sum_reductions (trace s) = [].

(** Where a process stands when the collectives before the sum reduction
    of path [k] are done. *)
Definition before_reduction (k : MemoryKind) (n : nat) (e : env) (q : proc)
  : Prop :=
  match k with
  | Managed =>
      if cuda_alloc_ok e then at_sum Managed n q else stops_at_line_109 q
  | Device =>
      if buffer_alloc_fails e then stops_at_line_123 q
      else if cuda_alloc_ok e then at_sum Device n q
      else stops_at_line_134 q
  | System =>
      if buffer_alloc_fails e then stops_at_line_123 q else at_sum System n q
  end.

Definition assert_failed (st : status) : bool :=
  match st with
  | Aborted AssertFail _ => true
  | _ => false
  end.

(** The calls of [MPI_Info_get_string]: the size of the buffer passed and
    whether the key was found. *)
Definition info_queries (tr : list event) : list (Z * bool) :=
  flat_map (fun ev =>
              match ev with
              | EvInfoGetString _ buflen found => [(buflen, found)]
              | _ => []
              end) tr.

(** The sizes asked of [malloc]. *)
Definition malloc_sizes (tr : list event) : list Z :=
  flat_map (fun ev => match ev with EvMalloc size _ => [size] | _ => [] end)
    tr.

Arguments bind {A B} m f /.
Arguments ret {A} a /.
Arguments get {A} f /.
Arguments var x /.
Arguments assign x v /.
Arguments c_return {A} code /.
Arguments skip /.
Arguments MPI_Info_create /.
Arguments MPI_Info_set key value /.
Arguments MPI_Info_free /.
Arguments MPI_Session_init /.
Arguments MPI_Session_get_info e /.
Arguments MPI_Info_get_string key into_val /.
Arguments MPI_Group_from_session_pset pset /.
Arguments MPI_Group_free /.
Arguments MPI_Comm_size c x /.
Arguments MPI_Session_finalize /.
Arguments MPI_Comm_create_from_group tag c /.
Arguments MPI_Allreduce_in_place buf op c /.
Arguments MPI_Comm_disconnect c /.
Arguments malloc e x size /.
Arguments free x /.
Arguments store x v /.
Arguments load x /.
Arguments assert cond /.
Arguments printf msg /.
Arguments cudaMallocManaged e x /.
Arguments cudaMalloc e x /.
Arguments cudaMemcpyAsync dst src dir /.
Arguments cudaStreamSynchronize /.
Arguments cudaFree x /.
Arguments val_gets_valptr /.
Arguments while_strsep /.
Arguments query_alloc_kinds : simpl never.
Arguments create_system_comm : simpl never.
Arguments check_cuda_awareness : simpl never.
Arguments execute : simpl never.
Arguments teardown : simpl never.
Arguments main : simpl never.
Arguments session_info : simpl never.

(** * The loop over the tokens *)

Lemma kinds_loop_none aware : kinds_loop None aware = aware.
Proof. simp kinds_loop. reflexivity. Qed.

Lemma strsep_some delim s :
  strsep (Some s) delim
  = (Some (fst (strsep_scan delim s)), snd (strsep_scan delim s)).
Proof. unfold strsep. destruct (strsep_scan delim s); reflexivity. Qed.

Lemma kinds_loop_some s aware :
  kinds_loop (Some s) aware
  = let kind := fst (strsep_scan "," s) in
    kinds_loop (snd (strsep_scan "," s))
      (if strcasecmp kind "cuda:managed" =? 0 then (1, snd aware)
       else if strcasecmp kind "cuda:device" =? 0 then (fst aware, 1)
       else aware).
Proof.
  rewrite kinds_loop_equation_1.
  destruct (inspect (strsep (Some s) ",")) as [[k r] H].
  assert (Hk : k = Some (fst (strsep_scan "," s)))
    by (rewrite strsep_some in H; congruence).
  assert (Hr : r = snd (strsep_scan "," s))
    by (rewrite strsep_some in H; congruence).
  subst k r. simp kinds_loop. cbn zeta.
  destruct (strcasecmp _ "cuda:managed" =? 0); [reflexivity|].
  destruct (strcasecmp _ "cuda:device" =? 0); reflexivity.
Qed.

(** [strsep] cuts the first token off. *)
Lemma split_on_strsep s :
  split_on "," s
  = fst (strsep_scan "," s)
    :: match snd (strsep_scan "," s) with
       | Some r => split_on "," r
       | None => []
       end.
Proof.
  induction s as [|c s IH]; [reflexivity|].
  cbn [split_on strsep_scan strchr_in].
  rewrite orb_false_r.
  destruct (Ascii.eqb c ","); [reflexivity|].
  rewrite IH. destruct (strsep_scan "," s) as [tok rest]. reflexivity.
Qed.

Lemma uchar_range c : 0 <= uchar c < 256.
Proof.
  unfold uchar. pose proof (nat_ascii_bounded c). lia.
Qed.

Lemma uchar_inj a b : uchar a = uchar b -> a = b.
Proof.
  unfold uchar. intros H. apply Nat2Z.inj in H.
  rewrite <- (ascii_nat_embedding a), <- (ascii_nat_embedding b).
  congruence.
Qed.

Lemma uchar_tolower c :
  uchar (tolower c)
  = if (65 <=? uchar c) && (uchar c <=? 90) then uchar c + 32 else uchar c.
Proof.
  unfold tolower.
  destruct ((65 <=? uchar c) && (uchar c <=? 90)) eqn:E; [|reflexivity].
  apply andb_prop in E. destruct E as [E1 E2].
  apply Z.leb_le in E1, E2.
  unfold uchar in *. rewrite nat_ascii_embedding by lia. lia.
Qed.

Lemma tolower_nul c : uchar (tolower c) = 0 -> uchar c = 0.
Proof.
  rewrite uchar_tolower.
  destruct ((65 <=? uchar c) && (uchar c <=? 90)) eqn:E; [|auto].
  apply andb_prop in E. destruct E as [E1 E2].
  apply Z.leb_le in E1, E2. lia.
Qed.

Lemma strcasecmp_cons a s b t :
  strcasecmp (String a s) (String b t) = 0 ->
  tolower a = tolower b /\ strcasecmp s t = 0.
Proof.
  cbn [strcasecmp]. cbv zeta.
  destruct (uchar (tolower a) - uchar (tolower b) =? 0) eqn:E.
  - apply Z.eqb_eq in E. intros H. split; [|exact H].
    apply uchar_inj. lia.
  - apply Z.eqb_neq in E. intros H. contradiction.
Qed.

Lemma strcasecmp_casefold a b :
  casefold a = casefold b -> strcasecmp a b = 0.
Proof.
  revert b; induction a as [|ca a IH]; intros [|cb b] H; try discriminate.
  - reflexivity.
  - cbn [casefold] in H. inversion H as [[Hc Hs]].
    cbn [strcasecmp]. cbv zeta. rewrite Hc, Z.sub_diag. cbn. auto.
Qed.

Lemma casefold_strcasecmp a b :
  nul_free a = true -> nul_free b = true ->
  strcasecmp a b = 0 -> casefold a = casefold b.
Proof.
  revert b; induction a as [|ca a IH]; intros [|cb b] Ha Hb H.
  - reflexivity.
  - exfalso. cbn [strcasecmp] in H. cbn [nul_free] in Hb.
    apply andb_prop in Hb. destruct Hb as [Hb _].
    apply negb_true_iff, Z.eqb_neq in Hb.
    apply Hb, tolower_nul. lia.
  - exfalso. cbn [strcasecmp] in H. cbn [nul_free] in Ha.
    apply andb_prop in Ha. destruct Ha as [Ha _].
    apply negb_true_iff, Z.eqb_neq in Ha.
    apply Ha, tolower_nul. lia.
  - apply strcasecmp_cons in H. destruct H as [Hc Hs].
    cbn [nul_free] in Ha, Hb.
    apply andb_prop in Ha, Hb. destruct Ha as [_ Ha]. destruct Hb as [_ Hb].
    cbn [casefold]. rewrite Hc, (IH b Ha Hb Hs). reflexivity.
Qed.

Lemma split_on_nul_free d s :
  nul_free s = true -> Forall (fun tok => nul_free tok = true) (split_on d s).
Proof.
  induction s as [|c s IH]; intros H.
  - repeat constructor.
  - cbn [nul_free] in H. apply andb_prop in H. destruct H as [Hc Hs].
    specialize (IH Hs). cbn [split_on].
    destruct (Ascii.eqb c d).
    + constructor; [reflexivity|assumption].
    + destruct (split_on d s) as [|tok toks].
      * repeat constructor. cbn [nul_free]. rewrite Hc. reflexivity.
      * inversion IH; subst. constructor; [|assumption].
        cbn [nul_free]. rewrite Hc. assumption.
Qed.

(** A token is not both identifiers at once. *)
Lemma names_one_kind tok :
  names_kind Managed tok = true -> names_kind Device tok = false.
Proof.
  unfold names_kind. cbn [kind_ident]. intros H.
  apply Z.eqb_eq in H. apply Z.eqb_neq. intros H'.
  do 5 (destruct tok as [|? tok]; [cbn in H; discriminate|];
        apply strcasecmp_cons in H; destruct H as [_ H];
        apply strcasecmp_cons in H'; destruct H' as [_ H']).
  destruct tok as [|c tok]; [cbn in H; discriminate|].
  apply strcasecmp_cons in H. destruct H as [H _].
  apply strcasecmp_cons in H'. destruct H' as [H' _].
  rewrite H in H'. discriminate.
Qed.

Lemma kinds_loop_tokens :
  forall n s aware,
    (String.length s <= n)%nat ->
    kinds_loop (Some s) aware
    = (if existsb (names_kind Managed) (split_on "," s) then 1 else fst aware,
       if existsb (names_kind Device) (split_on "," s) then 1 else snd aware).
Proof.
  induction n as [|n IH]; intros s aware Hlen.
  - destruct s; [|simpl in Hlen; lia].
    rewrite kinds_loop_some. cbn. destruct aware; reflexivity.
  - rewrite kinds_loop_some, split_on_strsep. cbv zeta.
    pose proof (strsep_scan_shorter "," s) as Hshort.
    destruct (strsep_scan "," s) as [tok rest].
    specialize (Hshort tok rest eq_refl). cbn [fst snd existsb].
    change (strcasecmp tok "cuda:managed" =? 0) with (names_kind Managed tok).
    change (strcasecmp tok "cuda:device" =? 0) with (names_kind Device tok).
    pose proof (names_one_kind tok) as Hone.
    destruct aware as [m d].
    destruct rest as [r|]; [rewrite IH by (simpl in Hshort; lia)
                           |rewrite kinds_loop_none];
      destruct (names_kind Managed tok);
      [rewrite Hone by reflexivity| |rewrite Hone by reflexivity|];
      clear Hone; try destruct (names_kind Device tok);
      cbn [fst snd orb existsb];
      repeat match goal with
             | |- context [existsb ?f ?l] => destruct (existsb f l)
             end;
      reflexivity.
Qed.

Lemma names_kind_casefold k tok :
  k <> System -> nul_free tok = true ->
  names_kind k tok = true <-> casefold tok = kind_ident k.
Proof.
  intros Hk Hnul. unfold names_kind. rewrite Z.eqb_eq.
  assert (Hid : casefold (kind_ident k) = kind_ident k)
    by (destruct k; reflexivity).
  assert (Hidn : nul_free (kind_ident k) = true) by (destruct k; reflexivity).
  split; intros H.
  - rewrite <- Hid. apply casefold_strcasecmp; assumption.
  - apply strcasecmp_casefold. congruence.
Qed.

(** The flags of a value are those of its tokens. *)
Lemma capabilities_advertised e k :
  k <> System ->
  (forall v, supported_kinds e = Some v -> nul_free v = true) ->
  supports e k = true <-> advertised (supported_kinds e) k.
Proof.
  intros Hk Hnul. unfold supports, managed_aware, device_aware, capabilities.
  destruct (supported_kinds e) as [v|]; cbn [advertised].
  - rewrite (kinds_loop_tokens (String.length v)) by lia.
    specialize (Hnul v eq_refl).
    pose proof (split_on_nul_free "," v Hnul) as Htok.
    rewrite Forall_forall in Htok.
    assert (Hex : forall k', k' <> System ->
              existsb (names_kind k') (split_on "," v) = true
              <-> exists tok, In tok (split_on "," v)
                              /\ casefold tok = kind_ident k').
    { intros k' Hk'. rewrite existsb_exists.
      split; intros [tok [Hin H]]; exists tok; split; try assumption;
        apply (names_kind_casefold k' tok Hk' (Htok tok Hin)); assumption. }
    destruct k; [congruence| |]; cbn [fst snd];
      rewrite <- Hex by assumption;
      destruct (existsb _ _); cbn; split; congruence.
  - destruct k; cbn; split; (congruence || contradiction).
Qed.

(** * Lemmas on the group semantics *)

Lemma comm_eqb_refl c : comm_eqb c c = true.
Proof.
  unfold comm_eqb. rewrite String.eqb_refl, Nat.eqb_refl.
  destruct (comm_assert c); [rewrite String.eqb_refl|]; reflexivity.
Qed.

Lemma signature_eqb_refl sg : signature_eqb sg sg = true.
Proof.
  destruct sg as [t a|op c|c]; simpl.
  - rewrite String.eqb_refl. destruct a; simpl; [apply String.eqb_refl|reflexivity].
  - rewrite comm_eqb_refl. destruct op; reflexivity.
  - apply comm_eqb_refl.
Qed.

Lemma collective_round_none ps :
  Forall (fun p => pending p = None) ps -> collective_round ps = None.
Proof.
  intros H. destruct ps as [|p ps]; [reflexivity|].
  inversion H as [|? ? Hp _]; subst. simpl. rewrite Hp. reflexivity.
Qed.

Lemma collective_round_all sg ps :
  ps <> [] ->
  Forall (fun p => pending p = Some sg) ps ->
  collective_round ps = Some (map (resume (map offered ps)) ps).
Proof.
  intros Hne H. destruct ps as [|p ps]; [congruence|].
  unfold collective_round.
  inversion H as [|? ? Hp _]; subst. rewrite Hp.
  replace (forallb (waits_for sg) (p :: ps)) with true; [reflexivity|].
  symmetry. apply forallb_forall. intros q Hq.
  rewrite Forall_forall in H. unfold waits_for. rewrite (H q Hq).
  apply signature_eqb_refl.
Qed.

Lemma reply_respond {X : Type} (c : coll X) sents :
  reply c sents = respond c (summary sents).
Proof. destruct c; reflexivity. Qed.

Lemma resume_answered sents p : resume sents p = answered (summary sents) p.
Proof. destruct p; simpl; try reflexivity; rewrite reply_respond; reflexivity. Qed.

Lemma run_world_aligned rounds :
  forall fuel ps,
    (List.length rounds <= fuel)%nat ->
    aligned rounds ps ->
    run_world fuel ps
    = Some (map (fun p => status_of (snd (play (map summary rounds) p))) ps).
Proof.
  induction rounds as [|sents rest IH]; intros fuel ps Hfuel Hal.
  - simpl in Hal. destruct fuel; simpl; rewrite (collective_round_none _ Hal);
      reflexivity.
  - destruct Hal as [[sg Hsg] [Hoff Hrest]].
    destruct ps as [|p ps'].
    + destruct fuel; reflexivity.
    + destruct fuel as [|fuel]; [simpl in Hfuel; lia|].
      cbn [run_world].
      rewrite (collective_round_all sg) by (assumption || discriminate).
      rewrite Hoff.
      rewrite (IH fuel _ ltac:(simpl in Hfuel; lia) Hrest).
      rewrite map_map. f_equal. apply map_ext. intros q.
      cbn [map play]. rewrite <- resume_answered.
      destruct (play (map summary rest) (resume sents q)); reflexivity.
Qed.

Lemma aligned_of_play {A : Type} (xs : list A) :
  forall (calls : list (signature * (A -> Z))) (f : A -> proc),
    (forall x, In x xs ->
       fst (play (map (fun pc => summary (map (snd pc) xs)) calls) (f x))
       = map (fun pc => (Some (fst pc), snd pc x)) calls
       /\ pending
            (snd (play (map (fun pc => summary (map (snd pc) xs)) calls) (f x)))
          = None) ->
    aligned (map (fun pc => map (snd pc) xs) calls) (map f xs).
Proof.
  induction calls as [|[sg c] calls IH]; intros f H.
  - simpl. apply Forall_forall. intros p Hp.
    apply in_map_iff in Hp. destruct Hp as [x [<- Hx]].
    apply (H x Hx).
  - cbn [map aligned fst snd]. split; [|split].
    + exists sg. apply Forall_forall. intros p Hp.
      apply in_map_iff in Hp. destruct Hp as [x [<- Hx]].
      destruct (H x Hx) as [H1 _]. cbn [map play fst snd] in H1.
      destruct (play _ (answered _ (f x))). simpl in H1. congruence.
    + rewrite map_map. apply map_ext_in. intros x Hx.
      destruct (H x Hx) as [H1 _]. cbn [map play fst snd] in H1.
      destruct (play _ (answered _ (f x))). simpl in H1. congruence.
    + rewrite map_map. apply (IH (fun x => resume (map c xs) (f x))).
      intros x Hx. destruct (H x Hx) as [H1 H2].
      cbn [map play fst snd] in H1, H2.
      rewrite resume_answered.
      destruct (play _ (answered _ (f x))). simpl in H1, H2.
      simpl. split; [congruence|assumption].
Qed.

(** * One process, path by path *)

Lemma substring_all s : substring 0 (String.length s) s = s.
Proof. induction s; simpl; congruence. Qed.

Lemma val_filled v :
  substring 0 (Z.to_nat (Z.pos (Pos.of_succ_nat (String.length v)) - 1)) v = v.
Proof.
  replace (Z.to_nat (Z.pos (Pos.of_succ_nat (String.length v)) - 1))
    with (String.length v) by lia.
  apply substring_all.
Qed.

Lemma play_step {X : Type} (c : coll X) s k a rest calls q :
  play rest (k (respond c a)) = (calls, q) ->
  play (a :: rest) (Yield c s k)
  = ((Some (sig_of c), sent_of c) :: calls, q).
Proof. intros H. simpl. rewrite H. reflexivity. Qed.

(** Symbolic execution of [main]: the blocks are opened one at a time,
    when the state they start from is known. *)
Ltac ev :=
  lazy -[kinds_loop wrap_int String.length substring Z.of_nat Z.to_nat Z.sub
         Pos.of_succ_nat Z.eqb play tame rounds_of_main query_alloc_kinds
         create_system_comm check_cuda_awareness execute teardown].

Ltac sym_step :=
  match goal with
  | |- context [query_alloc_kinds ?e ?s] => unfold query_alloc_kinds
  | |- context [create_system_comm ?s] => unfold create_system_comm
  | |- context [check_cuda_awareness ?s] => unfold check_cuda_awareness
  | |- context [execute ?e ?s] => unfold execute
  | |- context [teardown ?s] => unfold teardown
  | |- context [Z.of_nat (S ?k)] =>
      change (Z.of_nat (S k)) with (Z.pos (Pos.of_succ_nat k))
  | |- context [substring 0 (Z.to_nat (Z.pos _ - 1)) ?v] =>
      rewrite (val_filled v)
  | |- context [?x =? ?x] => rewrite (Z.eqb_refl x)
  | |- play (_ :: _) (Yield _ _ _) = _ => apply play_step
  | |- play [] _ = _ => reflexivity
  end.

Ltac sym_run := ev; repeat (sym_step; ev).

Ltac sym_play :=
  eexists; split;
  [ cbv [plan map fst snd managed_aware device_aware capabilities zero one
         supported_kinds];
    sym_run
  | constructor; try reflexivity; intros []; reflexivity ].

(** The cases of what the surroundings decide, under what is known of the
    two calls of [malloc] and of the CUDA allocation. *)
Ltac all_envs e Hparse Hbuf Hcuda :=
  unfold buffer_alloc_fails in Hbuf;
  destruct e as [[v|] [|b0 [|b1 l]] c]; cbn in Hparse, Hbuf, Hcuda;
  try (apply negb_false_iff in Hparse);
  try (apply negb_false_iff in Hbuf);
  subst; unfold start, main.

(** The Managed path: [malloc] is called for the value only. *)
Lemma play_managed e n c1 t1 n2 t2 c3 t3 n4 c4 a5 a6 :
  parse_alloc_fails e = false ->
  cuda_alloc_ok e = true ->
  exists s,
    play [ {| members := n; conj := c1; total := t1 |};
           {| members := n2; conj := 1; total := t2 |};
           {| members := n; conj := c3; total := t3 |};
           {| members := n4; conj := c4; total := wrap_int (Z.of_nat n) |};
           a5; a6 ] (start e)
    = (map (fun pc => (Some (fst pc), snd pc e)) (plan Managed n),
       Stop (Return 0) s)
    /\ finished e n Managed s.
Proof.
  intros Hparse Hcuda.
  destruct e as [[v|] [|b0 l] c]; cbn in Hparse, Hcuda;
    try (apply negb_false_iff in Hparse); subst; unfold start, main;
    sym_play.
Qed.

(** The Device path: the process stops at the load of line 137. *)
Lemma play_device e n c1 t1 n2 t2 n3 t3 c4 t4 n5 c5 :
  parse_alloc_fails e = false ->
  buffer_alloc_fails e = false ->
  cuda_alloc_ok e = true ->
  exists s,
    play [ {| members := n; conj := c1; total := t1 |};
           {| members := n2; conj := 0; total := t2 |};
           {| members := n3; conj := 1; total := t3 |};
           {| members := n; conj := c4; total := t4 |};
           {| members := n5; conj := c5; total := wrap_int (Z.of_nat n) |} ]
      (start e)
    = (map (fun pc => (Some (fst pc), snd pc e)) (plan Device n),
       Stop Fault s)
    /\ finished e n Device s.
Proof.
  intros Hparse Hbuf Hcuda. all_envs e Hparse Hbuf Hcuda; sym_play.
Qed.

(** The fallback path. *)
Lemma play_system e n c1 t1 n2 t2 n3 t3 n4 c4 a5 :
  parse_alloc_fails e = false ->
  buffer_alloc_fails e = false ->
  cuda_alloc_ok e = true ->
  exists s,
    play [ {| members := n; conj := c1; total := t1 |};
           {| members := n2; conj := 0; total := t2 |};
           {| members := n3; conj := 0; total := t3 |};
           {| members := n4; conj := c4; total := wrap_int (Z.of_nat n) |};
           a5 ] (start e)
    = (map (fun pc => (Some (fst pc), snd pc e)) (plan System n),
       Stop (Return 0) s)
    /\ finished e n System s.
Proof.
  intros Hparse Hbuf Hcuda. all_envs e Hparse Hbuf Hcuda; sym_play.
Qed.

(** * The whole group *)

Lemma forallb_map {A B : Type} (f : A -> B) (p : B -> bool) (l : list A) :
  forallb p (map f l) = forallb (fun x => p (f x)) l.
Proof. induction l; simpl; congruence. Qed.

Lemma land_common envs (f : env -> Z) :
  reduce MPI_LAND (map f envs)
  = if forallb (fun e => truthy (f e)) envs then 1 else 0.
Proof. unfold reduce. rewrite forallb_map. reflexivity. Qed.

Lemma sum_ones envs :
  reduce MPI_SUM (map one envs) = wrap_int (Z.of_nat (List.length envs)).
Proof.
  unfold reduce. f_equal.
  induction envs as [|e envs IH]; [reflexivity|].
  cbn [map fold_right List.length]. rewrite IH. unfold one. lia.
Qed.

Lemma negotiation_cases envs :
  (negotiation envs = Managed /\ common envs Managed = true)
  \/ (negotiation envs = Device /\ common envs Managed = false
      /\ common envs Device = true)
  \/ (negotiation envs = System /\ common envs Managed = false
      /\ common envs Device = false).
Proof.
  unfold negotiation.
  destruct (common envs Managed); [auto|].
  destruct (common envs Device); auto.
Qed.

Lemma nth_forallb (l : list bool) i :
  forallb (fun b => b) l = true -> nth i l true = true.
Proof.
  revert i; induction l as [|b l IH]; intros i H; [destruct i; reflexivity|].
  cbn [forallb] in H. apply andb_prop in H. destruct H as [Hb Hl].
  destruct i as [|i]; [exact Hb|]. cbn [nth]. apply IH, Hl.
Qed.

Lemma allocs_ok_no_failure e :
  allocs_ok e = true ->
  parse_alloc_fails e = false
  /\ buffer_alloc_fails e = false
  /\ cuda_alloc_ok e = true.
Proof.
  unfold allocs_ok, parse_alloc_fails, buffer_alloc_fails. intros H.
  apply andb_prop in H. destruct H as [H Hc].
  rewrite !(nth_forallb _ _ H). destruct (supported_kinds e); auto.
Qed.

(** A process of a group whose allocations succeed passes through the
    collectives of the negotiated path, up to line 167 or, on the Device
    path, to line 137. *)
Lemma process_outcome envs e :
  allocs_ok e = true ->
  exists s,
    play (map summary (rounds envs)) (start e)
    = (map (fun pc => (Some (fst pc), snd pc e))
         (plan (negotiation envs) (List.length envs)),
       Stop (last_halt (negotiation envs)) s)
    /\ finished e (List.length envs) (negotiation envs) s.
Proof.
  intros Hok. destruct (allocs_ok_no_failure e Hok) as [Hp [Hb Hc]].
  unfold rounds.
  destruct (negotiation_cases envs) as [[-> Hm]|[[-> [Hm Hd]]|[-> [Hm Hd]]]];
    cbv [plan map fst snd summary last_halt];
    fold (map zero envs) (map one envs)
      (map managed_aware envs) (map device_aware envs);
    rewrite ?length_map, ?sum_ones, ?land_common;
    change (forallb (fun e => truthy (managed_aware e)) envs)
      with (common envs Managed);
    change (forallb (fun e => truthy (device_aware e)) envs)
      with (common envs Device);
    rewrite ?Hm, ?Hd.
  - apply play_managed; assumption.
  - apply play_device; assumption.
  - apply play_system; assumption.
Qed.

Lemma outcome_finished envs e :
  allocs_ok e = true ->
  exists s,
    outcome envs e = ending (negotiation envs) s
    /\ finished e (List.length envs) (negotiation envs) s.
Proof.
  intros Hok. destruct (process_outcome envs e Hok) as [s [Hplay Hfin]].
  exists s. unfold outcome. rewrite Hplay. split; [|assumption].
  destruct (negotiation envs); reflexivity.
Qed.

Lemma plan_length k n : (List.length (plan k n) <= rounds_of_main)%nat.
Proof. destruct k; simpl; unfold rounds_of_main; lia. Qed.

(** The run of a group whose allocations succeed: every process ends
    where [outcome] says. *)
Lemma run_ok envs :
  forallb allocs_ok envs = true ->
  run envs = Some (map (outcome envs) envs).
Proof.
  intros Hok. unfold run.
  rewrite (run_world_aligned (rounds envs)).
  - rewrite map_map. reflexivity.
  - unfold rounds. rewrite length_map. apply plan_length.
  - unfold rounds. apply aligned_of_play. intros e He.
    rewrite forallb_forall in Hok.
    destruct (process_outcome envs e (Hok e He)) as [s [Hplay _]].
    unfold rounds in Hplay. rewrite map_map in Hplay.
    rewrite Hplay. split; reflexivity.
Qed.

(** * Runs in which every allocation succeeds *)

Lemma run_finished envs :
  forallb allocs_ok envs = true ->
  exists outs,
    run envs = Some outs
    /\ Forall2 (fun e st =>
                  exists s,
                    st = ending (negotiation envs) s
                    /\ finished e (List.length envs) (negotiation envs) s)
         envs outs.
Proof.
  intros Hok. exists (map (outcome envs) envs). split; [apply run_ok, Hok|].
  rewrite forallb_forall in Hok.
  assert (H : forall l, (forall e, In e l -> In e envs) ->
            Forall2 (fun e st =>
                       exists s,
                         st = ending (negotiation envs) s
                         /\ finished e (List.length envs) (negotiation envs) s)
              l (map (outcome envs) l)).
  { induction l as [|e l IH]; intros Hin; [constructor|].
    cbn [map]. constructor.
    - apply outcome_finished, Hok, Hin. left. reflexivity.
    - apply IH. intros e' He'. apply Hin. right. exact He'. }
  apply H. auto.
Qed.

Lemma Forall2_Forall_r {A B : Type} (R : A -> B -> Prop) (Q : B -> Prop)
  (l : list A) (l' : list B) :
  Forall2 R l l' -> (forall a b, In a l -> R a b -> Q b) -> Forall Q l'.
Proof.
  induction 1 as [|a b l l' Hab _ IH]; intros HQ; constructor.
  - apply (HQ a b); [left; reflexivity|assumption].
  - apply IH. intros a' b' Ha'. apply HQ. right. exact Ha'.
Qed.

Lemma final_state_ending k s : final_state (ending k s) = s.
Proof. destruct k; reflexivity. Qed.

(** Every process of such a run satisfies what follows from [finished]. *)
Lemma run_all (Q : nat -> MemoryKind -> state -> Prop) envs :
  forallb allocs_ok envs = true ->
  (forall e s,
      In e envs ->
      finished e (List.length envs) (negotiation envs) s ->
      Q (List.length envs) (negotiation envs) s) ->
  exists outs,
    run envs = Some outs
    /\ List.length outs = List.length envs
    /\ Forall (fun st =>
                 st = ending (negotiation envs) (final_state st)
                 /\ Q (List.length envs) (negotiation envs) (final_state st))
         outs.
Proof.
  intros Hok HQ. destruct (run_finished envs Hok) as [outs [Hrun Hall]].
  exists outs. split; [exact Hrun|]. split.
  - symmetry. eapply Forall2_length. exact Hall.
  - eapply Forall2_Forall_r; [exact Hall|].
    intros e st He [s [-> Hfin]]. rewrite final_state_ending.
    split; [reflexivity|]. apply (HQ e s He Hfin).
Qed.

Lemma wrap_int_small z : - 2 ^ 31 <= z <= INT_MAX -> wrap_int z = z.
Proof.
  unfold wrap_int, INT_MAX. intros H.
  rewrite Z.mod_small by lia. lia.
Qed.

Lemma forallb_perm {A : Type} (p : A -> bool) (l l' : list A) :
  Permutation l l' -> forallb p l = forallb p l'.
Proof.
  induction 1 as [|x l l' _ IH|x y l|l l' l'' _ IH1 _ IH2]; cbn [forallb].
  - reflexivity.
  - rewrite IH. reflexivity.
  - destruct (p x), (p y); reflexivity.
  - congruence.
Qed.

Lemma negotiation_perm envs envs' :
  Permutation envs envs' -> negotiation envs = negotiation envs'.
Proof.
  intros H. unfold negotiation, common.
  rewrite (forallb_perm _ _ _ H).
  rewrite (forallb_perm (fun e => supports e Device) _ _ H).
  reflexivity.
Qed.

Lemma all_before_spec p q tr :
  all_before p q tr = true <->
  forall i j ei ej,
    nth_error tr i = Some ei -> nth_error tr j = Some ej ->
    p ei = true -> q ej = true -> (i <= j)%nat.
Proof.
  induction tr as [|ev tr IH]; cbn [all_before].
  - split; [|reflexivity]. intros _ [|i] j ei ej H; discriminate.
  - rewrite andb_true_iff, IH, orb_true_iff, !negb_true_iff. split.
    + intros [Hev Htr] i j ei ej Hi Hj Hp Hq.
      destruct i as [|i]; [lia|]. destruct j as [|j].
      * exfalso. cbn in Hi, Hj. inversion Hj; subst ej.
        destruct Hev as [Hev|Hev]; [congruence|].
        assert (existsb p tr = true); [|congruence].
        apply existsb_exists. exists ei. split; [|assumption].
        eapply nth_error_In. exact Hi.
      * cbn in Hi, Hj. pose proof (Htr i j ei ej Hi Hj Hp Hq). lia.
    + intros H. split.
      * destruct (q ev) eqn:Hq; [right|left; reflexivity].
        destruct (existsb p tr) eqn:Hex; [|reflexivity].
        apply existsb_exists in Hex. destruct Hex as [ei [Hin Hp]].
        apply In_nth_error in Hin. destruct Hin as [i Hi].
        pose proof (H (S i) 0%nat ei ev Hi eq_refl Hp Hq). lia.
      * intros i j ei ej Hi Hj Hp Hq.
        pose proof (H (S i) (S j) ei ej Hi Hj Hp Hq). lia.
Qed.

Lemma copies_synced_spec tr :
  copies_synced tr = true ->
  forall i d s dir,
    nth_error tr i = Some (EvMemcpyAsync d s dir) ->
    nth_error tr (S i) = Some EvStreamSynchronize.
Proof.
  induction tr as [|ev tr IH]; intros H i d s dir Hi.
  - destruct i; discriminate.
  - destruct i as [|i].
    + cbn in Hi. inversion Hi; subst ev. cbn [copies_synced] in H.
      destruct tr as [|[] tr]; try discriminate. reflexivity.
    + cbn in Hi. cbn [nth_error]. eapply IH; [|exact Hi].
      cbn [copies_synced] in H.
      destruct ev; try exact H.
      destruct tr as [|[] tr]; try discriminate. exact H.
Qed.

(** * The claims *)

(** C1. Whatever the capability sets of the processes, when every
    allocation succeeds the run ends with every process on one and the same
    kind: a kind that every process supports (or System), that no commonly
    supported accelerator kind is preferred to, and that is the outcome of
    the two AND reductions taken in order, Managed first, then Device; the
    AND reductions a process performs are the first alone when it yields
    true, both otherwise. The process then returns 0, or, when the kind is
    Device, stops at line 137. *)
Theorem negotiated_kind_is_best_common (envs : list env) :
  forallb allocs_ok envs = true ->
  exists outs,
    run envs = Some outs
    /\ List.length outs = List.length envs
    /\ Forall (fun st =>
                 st = ending (negotiation envs) (final_state st)
                 /\ negotiated (final_state st) = negotiation envs
                 /\ land_reductions (trace (final_state st))
                    = match negotiation envs with
                      | Managed => [(Stack cuda_managed_aware, 1)]
                      | Device =>
                          [(Stack cuda_managed_aware, 0);
                           (Stack cuda_device_aware, 1)]
                      | System =>
                          [(Stack cuda_managed_aware, 0);
                           (Stack cuda_device_aware, 0)]
                      end) outs
    /\ common envs (negotiation envs) = true
    /\ (forall k, k <> System -> common envs k = true ->
                  (preference k <= preference (negotiation envs))%nat)
    /\ negotiation envs
       = (if reduce MPI_LAND (map managed_aware envs) =? 1 then Managed
          else if reduce MPI_LAND (map device_aware envs) =? 1 then Device
          else System).
Proof.
  intros Hok.
  destruct (run_all (fun n k s =>
                       negotiated s = k
                       /\ land_reductions (trace s)
                          = match k with
                            | Managed => [(Stack cuda_managed_aware, 1)]
                            | Device =>
                                [(Stack cuda_managed_aware, 0);
                                 (Stack cuda_device_aware, 1)]
                            | System =>
                                [(Stack cuda_managed_aware, 0);
                                 (Stack cuda_device_aware, 0)]
                            end) envs Hok) as [outs [Hrun [Hlen Hall]]].
  { intros e s _ Hfin. split; [exact (fin_negotiated _ _ _ _ Hfin)|].
    rewrite (fin_trace _ _ _ _ Hfin).
    unfold expected_trace.
    destruct (supported_kinds e), (negotiation envs); reflexivity. }
  exists outs. repeat split; try assumption.
  - destruct (negotiation_cases envs) as [[-> H]|[[-> [_ H]]|[-> _]]];
      try exact H. unfold common. apply forallb_forall. reflexivity.
  - intros k Hk Hc.
    destruct (negotiation_cases envs) as [[-> H]|[[-> [H _]]|[-> [H H']]]];
      destruct k; cbn; try lia; congruence.
  - rewrite !land_common.
    change (forallb (fun e => truthy (managed_aware e)) envs)
      with (common envs Managed).
    change (forallb (fun e => truthy (device_aware e)) envs)
      with (common envs Device).
    unfold negotiation.
    destruct (common envs Managed); [reflexivity|].
    destruct (common envs Device); reflexivity.
Qed.

Lemma negotiated_kind_is_best_common_witness :
  exists outs,
    run [all_kinds; device_only; all_kinds; device_only] = Some outs
    /\ Forall (fun st => negotiated (final_state st) = Device) outs.
Proof.
  destruct (negotiated_kind_is_best_common
              [all_kinds; device_only; all_kinds; device_only] eq_refl)
    as [outs [Hrun [_ [Hall _]]]].
  exists outs. split; [exact Hrun|].
  eapply Forall_impl; [|exact Hall].
  intros st [_ [H _]]. exact H.
Defined.

(** C9. Permuting which process holds which capability set leaves the
    negotiated kind unchanged: the two runs end with every process on the
    same kind. *)
Theorem negotiation_rank_invariant (envs envs' : list env) :
  Permutation envs envs' ->
  forallb allocs_ok envs = true ->
  exists k outs outs',
    run envs = Some outs
    /\ run envs' = Some outs'
    /\ Forall (fun st => negotiated (final_state st) = k) outs
    /\ Forall (fun st => negotiated (final_state st) = k) outs'
    /\ reduce MPI_LAND (map managed_aware envs)
       = reduce MPI_LAND (map managed_aware envs')
    /\ reduce MPI_LAND (map device_aware envs)
       = reduce MPI_LAND (map device_aware envs').
Proof.
  intros Hperm Hok.
  assert (Hok' : forallb allocs_ok envs' = true)
    by (rewrite <- (forallb_perm _ _ _ Hperm); exact Hok).
  destruct (run_all (fun _ k s => negotiated s = k) envs Hok)
    as [outs [Hrun [_ Hall]]].
  { intros e s _ H. exact (fin_negotiated _ _ _ _ H). }
  destruct (run_all (fun _ k s => negotiated s = k) envs' Hok')
    as [outs' [Hrun' [_ Hall']]].
  { intros e s _ H. exact (fin_negotiated _ _ _ _ H). }
  exists (negotiation envs), outs, outs'.
  repeat split; try assumption.
  - eapply Forall_impl; [|exact Hall]. intros st [_ H]. exact H.
  - rewrite (negotiation_perm _ _ Hperm).
    eapply Forall_impl; [|exact Hall']. intros st [_ H]. exact H.
  - rewrite !land_common, (forallb_perm _ _ _ Hperm). reflexivity.
  - rewrite !land_common, (forallb_perm _ _ _ Hperm). reflexivity.
Qed.

Lemma negotiation_rank_invariant_witness :
  exists k outs outs',
    run [all_kinds; device_only; all_kinds] = Some outs
    /\ run [device_only; all_kinds; all_kinds] = Some outs'
    /\ Forall (fun st => negotiated (final_state st) = k) outs
    /\ Forall (fun st => negotiated (final_state st) = k) outs'.
Proof.
  destruct (negotiation_rank_invariant
              [all_kinds; device_only; all_kinds]
              [device_only; all_kinds; all_kinds]
              (perm_swap _ _ _) eq_refl)
    as [k [outs [outs' [H1 [H2 [H3 [H4 _]]]]]]].
  exists k, outs, outs'. auto.
Defined.

(** C2 (what the code does). On each of the three paths a process stores
    1 once, the buffer it hands to the sum reduction holds 1, the reduction
    leaves the number of processes in it, and that is what [nranks] holds.
    On the Managed and the fallback path the verification reads that
    number, from the buffer that was reduced, and the process returns 0.
    On the Device path the verification of line 137 is a load of the
    device buffer by host code: it reads nothing and the process stops
    there. The number of processes is one an [int] holds. *)
Theorem reduction_yields_group_size (envs : list env) :
  forallb allocs_ok envs = true ->
  Z.of_nat (List.length envs) <= INT_MAX ->
  exists outs,
    run envs = Some outs
    /\ List.length outs = List.length envs
    /\ Forall (fun st =>
                 st = ending (negotiation envs) (final_state st)
                 /\ exists p b,
                     let s := final_state st in
                     let k := negotiation envs in
                     let n := Z.of_nat (List.length envs) in
                     ptrs s (initialized_buffer k) = Some p
                     /\ ptrs s (reduced_buffer k) = Some b
                     /\ host_stores (trace s)
                        = [(p, match k with Managed => Managed | _ => System end,
                            1)]
                     /\ sum_reductions (trace s) = [(Heap b, k, 1, n)]
                     /\ option_map blk_val (nth_error (heap s) b)
                        = Some (Some n)
                     /\ host_loads (trace s)
                        = [(b, k, match k with
                                  | Device => None
                                  | _ => Some n
                                  end)]
                     /\ ints s nranks = n) outs.
Proof.
  intros Hok Hn.
  destruct (run_all (fun n k s =>
             exists p b,
               ptrs s (initialized_buffer k) = Some p
               /\ ptrs s (reduced_buffer k) = Some b
               /\ host_stores (trace s)
                  = [(p, match k with Managed => Managed | _ => System end, 1)]
               /\ sum_reductions (trace s) = [(Heap b, k, 1, Z.of_nat n)]
               /\ option_map blk_val (nth_error (heap s) b)
                  = Some (Some (Z.of_nat n))
               /\ host_loads (trace s)
                  = [(b, k, match k with
                            | Device => None
                            | _ => Some (Z.of_nat n)
                            end)]
               /\ ints s nranks = Z.of_nat n) envs Hok)
    as [outs [Hrun [Hlen Hall]]].
  { intros e s _ [Htr _ Hnr Hmb Hsb Hdb _ Hh _ _ _ _].
    rewrite Htr, Hnr, Hh.
    unfold expected_trace, execution_events, expected_heap.
    destruct (negotiation envs); cbn [initialized_buffer reduced_buffer];
      cbv beta iota zeta;
      rewrite ?Hmb, ?Hsb, ?Hdb,
        !wrap_int_small by (unfold INT_MAX in *; lia);
      do 2 eexists;
      (split; [reflexivity|]); (split; [reflexivity|]);
      destruct (supported_kinds e); repeat split; reflexivity. }
  exists outs. repeat split; assumption.
Qed.

Lemma reduction_yields_group_size_witness :
  exists outs,
    run [device_only; all_kinds; device_only] = Some outs
    /\ Forall (fun st =>
                 (exists s, st = Aborted Fault s)
                 /\ map snd (sum_reductions (trace (final_state st))) = [3]
                 /\ map snd (host_loads (trace (final_state st))) = [None])
         outs.
Proof.
  destruct (reduction_yields_group_size
              [device_only; all_kinds; device_only] eq_refl)
    as [outs [Hrun [_ Hall]]].
  - unfold INT_MAX. cbn. lia.
  - exists outs. split; [exact Hrun|].
    eapply Forall_impl; [|exact Hall].
    intros st [Hend [p [b [_ [_ [_ [Hsum [_ [Hloads _]]]]]]]]].
    cbv zeta in Hsum, Hloads.
    split; [eexists; exact Hend|].
    rewrite Hsum, Hloads. split; reflexivity.
Defined.

(** C5 (what the code does). A process creates the communicator asserting
    System, before any reduction, and after the AND reductions one more
    communicator exactly when an accelerator kind was negotiated, asserting
    that kind. On the Managed and the fallback path what it disconnects are
    the communicators it created, each once, all before the session is
    finalized. On the Device path the process stops at line 137: it
    disconnects neither of its two communicators and does not finalize the
    session. *)
Theorem communicators_created_and_released (envs : list env) :
  forallb allocs_ok envs = true ->
  exists outs,
    run envs = Some outs
    /\ List.length outs = List.length envs
    /\ Forall (fun st =>
                 st = ending (negotiation envs) (final_state st)
                 /\ let tr := trace (final_state st) in
                    let k := negotiation envs in
                    map asserted_kind (created tr)
                    = Some System
                      :: match k with System => [] | _ => [Some k] end
                    /\ all_before (creates_kind System) is_allreduce tr = true
                    /\ all_before is_land creates_accelerator tr = true
                    /\ NoDup (created tr)
                    /\ (k <> Device ->
                        Permutation (created tr) (released tr)
                        /\ all_before is_collective is_finalize tr = true
                        /\ In EvSessionFinalize tr)
                    /\ (k = Device ->
                        released tr = []
                        /\ existsb is_finalize tr = false
                        /\ session (final_state st) = true)) outs.
Proof.
  intros Hok.
  destruct (run_all (fun n k s =>
             let tr := trace s in
             map asserted_kind (created tr)
             = Some System :: match k with System => [] | _ => [Some k] end
             /\ all_before (creates_kind System) is_allreduce tr = true
             /\ all_before is_land creates_accelerator tr = true
             /\ NoDup (created tr)
             /\ (k <> Device ->
                 Permutation (created tr) (released tr)
                 /\ all_before is_collective is_finalize tr = true
                 /\ In EvSessionFinalize tr)
             /\ (k = Device ->
                 released tr = []
                 /\ existsb is_finalize tr = false
                 /\ session s = true)) envs Hok)
    as [outs [Hrun [Hlen Hall]]].
  { intros e s _ Hfin. cbv zeta.
    rewrite (fin_trace _ _ _ _ Hfin), (fin_session _ _ _ _ Hfin).
    unfold expected_trace.
    destruct (supported_kinds e), (negotiation envs);
      (split; [reflexivity|]); (split; [reflexivity|]);
      (split; [reflexivity|]);
      (split; [repeat constructor; cbn; intuition discriminate|]);
      (split; intros Hk; try congruence);
      repeat split; try reflexivity;
      cbn; try tauto; try apply perm_swap; apply Permutation_refl. }
  exists outs. repeat split; assumption.
Qed.

Lemma communicators_created_and_released_witness :
  exists outs,
    run [device_only; device_only] = Some outs
    /\ Forall (fun st =>
                 map asserted_kind (created (trace (final_state st)))
                 = [Some System; Some Device]
                 /\ released (trace (final_state st)) = []) outs.
Proof.
  destruct (communicators_created_and_released [device_only; device_only]
              eq_refl) as [outs [Hrun [_ Hall]]].
  exists outs. split; [exact Hrun|].
  eapply Forall_impl; [|exact Hall].
  intros st [_ [H [_ [_ [_ [_ Hdev]]]]]]. split; [exact H|].
  apply (Hdev eq_refl).
Defined.

(** C6. In every reduction of a process the communicator asserts the kind
    of the memory the buffer lies in, and is one the process created: the
    AND reductions work on the two flags, in host memory, over the
    communicator asserting System, and the sum reduction works on the
    managed buffer over the one asserting Managed, on the device buffer
    over the one asserting Device, or on the host buffer over the one
    asserting System. *)
Theorem reductions_match_communicator_kind (envs : list env) :
  forallb allocs_ok envs = true ->
  exists outs,
    run envs = Some outs
    /\ List.length outs = List.length envs
    /\ Forall (fun st =>
                 st = ending (negotiation envs) (final_state st)
                 /\ let s := final_state st in
                    let k := negotiation envs in
                    let n := List.length envs in
                    Forall (fun r =>
                              asserted_kind (snd r) = Some (snd (fst r))
                              /\ In (snd r) (created (trace s)))
                      (reductions (trace s))
                    /\ exists b,
                        ptrs s (reduced_buffer k) = Some b
                        /\ reductions (trace s)
                           = (MPI_LAND, Stack cuda_managed_aware, System,
                              comm_for System n)
                             :: match k with
                                | Managed => []
                                | _ =>
                                    [(MPI_LAND, Stack cuda_device_aware,
                                      System, comm_for System n)]
                                end
                             ++ [(MPI_SUM, Heap b, k, comm_for k n)]) outs.
Proof.
  intros Hok.
  destruct (run_all (fun n k s =>
             Forall (fun r =>
                       asserted_kind (snd r) = Some (snd (fst r))
                       /\ In (snd r) (created (trace s)))
               (reductions (trace s))
             /\ exists b,
                 ptrs s (reduced_buffer k) = Some b
                 /\ reductions (trace s)
                    = (MPI_LAND, Stack cuda_managed_aware, System,
                       comm_for System n)
                      :: match k with
                         | Managed => []
                         | _ =>
                             [(MPI_LAND, Stack cuda_device_aware, System,
                               comm_for System n)]
                         end
                      ++ [(MPI_SUM, Heap b, k, comm_for k n)]) envs Hok)
    as [outs [Hrun [Hlen Hall]]].
  { intros e s _ [Htr _ _ Hmb Hsb Hdb _ _ _ _ _ _].
    rewrite Htr. unfold expected_trace.
    destruct (negotiation envs); cbn [reduced_buffer];
      rewrite ?Hmb, ?Hsb, ?Hdb;
      destruct (supported_kinds e);
      (split; [repeat constructor; cbn; tauto
              |eexists; split; reflexivity]). }
  exists outs. repeat split; assumption.
Qed.

Lemma reductions_match_communicator_kind_witness :
  exists outs,
    run [device_only; all_kinds] = Some outs
    /\ Forall (fun st =>
                 Forall (fun r => asserted_kind (snd r) = Some (snd (fst r)))
                   (reductions (trace (final_state st)))) outs.
Proof.
  destruct (reductions_match_communicator_kind [device_only; all_kinds]
              eq_refl) as [outs [Hrun [_ Hall]]].
  exists outs. split; [exact Hrun|].
  eapply Forall_impl; [|exact Hall].
  intros st [_ [H _]].
  eapply Forall_impl; [|exact H]. intros r [Hr _]. exact Hr.
Defined.

(** C7. In the trace of a process every asynchronous copy is the event
    just before a stream synchronization, so that nothing (no load, store,
    reduction or free of the two blocks of the copy) comes between the
    copy and the wait, and no copy is left in flight at the end. *)
Theorem copies_are_synchronized (envs : list env) :
  forallb allocs_ok envs = true ->
  exists outs,
    run envs = Some outs
    /\ List.length outs = List.length envs
    /\ Forall (fun st =>
                 st = ending (negotiation envs) (final_state st)
                 /\ let s := final_state st in
                    (forall i dst src dir,
                        nth_error (trace s) i
                        = Some (EvMemcpyAsync dst src dir) ->
                        nth_error (trace s) (S i) = Some EvStreamSynchronize)
                    /\ synchronized [] (trace s) = true
                    /\ stream s = []) outs.
Proof.
  intros Hok.
  destruct (run_all (fun n k s =>
             (forall i dst src dir,
                 nth_error (trace s) i = Some (EvMemcpyAsync dst src dir) ->
                 nth_error (trace s) (S i) = Some EvStreamSynchronize)
             /\ synchronized [] (trace s) = true
             /\ stream s = []) envs Hok)
    as [outs [Hrun [Hlen Hall]]].
  { intros e s _ [Htr _ _ _ _ _ Hst _ _ _ _ _].
    rewrite Htr. unfold expected_trace. split; [|split; [|exact Hst]].
    - apply copies_synced_spec.
      destruct (supported_kinds e), (negotiation envs); reflexivity.
    - destruct (supported_kinds e), (negotiation envs); reflexivity. }
  exists outs. repeat split; assumption.
Qed.

Lemma copies_are_synchronized_witness :
  exists outs,
    run [system_only; all_kinds; no_key] = Some outs
    /\ Forall (fun st => synchronized [] (trace (final_state st)) = true) outs.
Proof.
  destruct (copies_are_synchronized [system_only; all_kinds; no_key] eq_refl)
    as [outs [Hrun [_ Hall]]].
  exists outs. split; [exact Hrun|].
  eapply Forall_impl; [|exact Hall].
  intros st [_ [_ [H _]]]. exact H.
Defined.

(** C10 (what the code does). When Device is negotiated, the host buffer
    of a process is written once, by the store of 1, and the reduction
    works on the device buffer; the verification of line 137 loads from
    the device buffer, where the process stops: the host buffer, which
    still holds 1, is never freed. *)
Theorem device_path_leaves_host_buffer (envs : list env) :
  forallb allocs_ok envs = true ->
  negotiation envs = Device ->
  exists outs,
    run envs = Some outs
    /\ List.length outs = List.length envs
    /\ Forall (fun st =>
                 st = Aborted Fault (final_state st)
                 /\ exists p q,
                     let s := final_state st in
                     ptrs s system_buf = Some p
                     /\ ptrs s device_buf = Some q
                     /\ p <> q
                     /\ filter (writes p) (trace s) = [EvHostStore p System 1]
                     /\ filter (frees p) (trace s) = []
                     /\ nth_error (heap s) p
                        = Some {| blk_kind := System; blk_live := true;
                                  blk_val := Some 1 |}
                     /\ map fst (sum_reductions (trace s))
                        = [(Heap q, Device, 1)]
                     /\ map fst (host_loads (trace s)) = [(q, Device)]
                     /\ last (trace s) EvInfoCreate
                        = EvHostLoad q Device None) outs.
Proof.
  intros Hok Hdev.
  destruct (run_all (fun n k s =>
             k = Device ->
             exists p q,
               ptrs s system_buf = Some p
               /\ ptrs s device_buf = Some q
               /\ p <> q
               /\ filter (writes p) (trace s) = [EvHostStore p System 1]
               /\ filter (frees p) (trace s) = []
               /\ nth_error (heap s) p
                  = Some {| blk_kind := System; blk_live := true;
                            blk_val := Some 1 |}
               /\ map fst (sum_reductions (trace s)) = [(Heap q, Device, 1)]
               /\ map fst (host_loads (trace s)) = [(q, Device)]
               /\ last (trace s) EvInfoCreate = EvHostLoad q Device None)
              envs Hok)
    as [outs [Hrun [Hlen Hall]]].
  { intros e s _ [Htr _ _ _ Hsb Hdb _ Hh _ _ _ _] Hk.
    rewrite Htr, Hsb, Hdb, Hh, Hk. unfold expected_trace, expected_heap.
    destruct (supported_kinds e); do 2 eexists;
      (split; [reflexivity|]); (split; [reflexivity|]);
      (split; [discriminate|]); repeat split; reflexivity. }
  exists outs. repeat split; try assumption.
  eapply Forall_impl; [|exact Hall].
  intros st [Hend H]. rewrite Hdev in Hend. split; [exact Hend|].
  apply H, Hdev.
Qed.

Lemma device_path_leaves_host_buffer_witness :
  exists outs,
    run [device_only; all_kinds; device_only] = Some outs
    /\ Forall (fun st =>
                 exit_code st = None
                 /\ exists p,
                     ptrs (final_state st) system_buf = Some p
                     /\ filter (frees p) (trace (final_state st)) = []) outs.
Proof.
  destruct (device_path_leaves_host_buffer
              [device_only; all_kinds; device_only] eq_refl eq_refl)
    as [outs [Hrun [_ Hall]]].
  exists outs. split; [exact Hrun|].
  eapply Forall_impl; [|exact Hall].
  intros st [Hend [p [q [Hp [_ [_ [_ [Hfree _]]]]]]]].
  split; [rewrite Hend; reflexivity|]. exists p. split; assumption.
Defined.

(** C4 (what the code does). Exactly when Device is negotiated, host code
    touches device memory: the verification of line 137 loads from the
    device buffer, which no copy has staged to the host, and the process
    stops there. *)
Theorem host_loads_device_buffer (envs : list env) :
  forallb allocs_ok envs = true ->
  exists outs,
    run envs = Some outs
    /\ List.length outs = List.length envs
    /\ Forall (fun st =>
                 st = ending (negotiation envs) (final_state st)
                 /\ let s := final_state st in
                    existsb host_touches_device (trace s)
                    = match negotiation envs with
                      | Device => true
                      | _ => false
                      end
                    /\ (negotiation envs = Device ->
                        exists q,
                          ptrs s device_buf = Some q
                          /\ map fst (host_loads (trace s)) = [(q, Device)]))
         outs.
Proof.
  intros Hok.
  destruct (run_all (fun n k s =>
             existsb host_touches_device (trace s)
             = match k with Device => true | _ => false end
             /\ (k = Device ->
                 exists q,
                   ptrs s device_buf = Some q
                   /\ map fst (host_loads (trace s)) = [(q, Device)]))
              envs Hok)
    as [outs [Hrun [Hlen Hall]]].
  { intros e s _ [Htr _ _ _ _ Hdb _ _ _ _ _ _].
    rewrite Htr, Hdb. unfold expected_trace.
    destruct (supported_kinds e), (negotiation envs);
      (split; [reflexivity|]); intros Hk; try discriminate;
      eexists; split; reflexivity. }
  exists outs. repeat split; assumption.
Qed.

Lemma host_loads_device_buffer_witness :
  exists outs,
    run [device_only; device_only] = Some outs
    /\ Forall (fun st =>
                 existsb host_touches_device (trace (final_state st)) = true)
         outs.
Proof.
  destruct (host_loads_device_buffer [device_only; device_only] eq_refl)
    as [outs [Hrun [_ Hall]]].
  exists outs. split; [exact Hrun|].
  eapply Forall_impl; [|exact Hall].
  intros st [_ [H _]]. exact H.
Defined.

(** * The query of the allocation kinds *)

(** Lines 23-53 complete without a collective, and leave in the two flags
    what the loop over the tokens computes. *)
Lemma after_query_flags e :
  parse_alloc_fails e = false ->
  exists s,
    after_query e = Ret tt s
    /\ (ints s cuda_managed_aware, ints s cuda_device_aware) = capabilities e
    /\ existsb is_collective (trace s) = false.
Proof.
  intros Hok. unfold after_query, capabilities.
  destruct e as [[v|] [|b0 l] c]; cbn in Hok;
    try (apply negb_false_iff in Hok; subst b0);
    cbv [supported_kinds]; sym_run;
    (eexists; split; [reflexivity|]);
    (split; [|reflexivity]);
    cbn [ints]; try reflexivity;
    destruct (kinds_loop (Some v) (0, 0)); reflexivity.
Qed.

(** C3 (as the code has it). When the key is absent the query leaves both
    flags 0 and goes on; when it is present (and the buffer for the value
    can be had) the flag of a kind is set exactly when some piece of the
    value between commas is, case apart and with nothing trimmed, the
    identifier of the kind. *)
Theorem query_flags_are_tokens (e : env) :
  parse_alloc_fails e = false ->
  (forall v, supported_kinds e = Some v -> nul_free v = true) ->
  exists s,
    after_query e = Ret tt s
    /\ (truthy (ints s cuda_managed_aware) = true
        <-> advertised (supported_kinds e) Managed)
    /\ (truthy (ints s cuda_device_aware) = true
        <-> advertised (supported_kinds e) Device)
    /\ (supported_kinds e = None ->
        ints s cuda_managed_aware = 0 /\ ints s cuda_device_aware = 0).
Proof.
  intros Hok Hnul.
  destruct (after_query_flags e Hok) as [s [Hrun [Hflags _]]].
  exists s. split; [exact Hrun|].
  assert (Hm : ints s cuda_managed_aware = managed_aware e)
    by (unfold managed_aware; rewrite <- Hflags; reflexivity).
  assert (Hd : ints s cuda_device_aware = device_aware e)
    by (unfold device_aware; rewrite <- Hflags; reflexivity).
  rewrite Hm, Hd. split; [|split].
  - apply (capabilities_advertised e Managed); [discriminate|exact Hnul].
  - apply (capabilities_advertised e Device); [discriminate|exact Hnul].
  - intros Hnone. unfold managed_aware, device_aware, capabilities.
    rewrite Hnone. split; reflexivity.
Qed.

Lemma query_flags_are_tokens_witness :
  exists s,
    after_query mixed_case = Ret tt s
    /\ truthy (ints s cuda_managed_aware) = false
    /\ truthy (ints s cuda_device_aware) = true.
Proof.
  destruct (query_flags_are_tokens mixed_case eq_refl) as [s [Hrun [Hm [Hd _]]]].
  - intros v Hv. inversion Hv. reflexivity.
  - exists s. split; [exact Hrun|]. split.
    + destruct (truthy (ints s cuda_managed_aware)); [|reflexivity].
      destruct Hm as [Hm _]. destruct (Hm eq_refl) as [tok [Hin Htok]].
      cbn in Hin.
      destruct Hin as [<-|[<-|[<-|[]]]]; discriminate.
    + apply Hd. exists "CUDA:Device". split; [cbn; tauto|reflexivity].
Defined.

(** C3 as stated fails: a token that is the identifier of a kind only
    after trimming does not set the flag. *)
Lemma trimmed_token_sets_no_flag :
  exists s,
    after_query padded = Ret tt s
    /\ advertised_trimmed (supported_kinds padded) Device
    /\ truthy (ints s cuda_device_aware) = false.
Proof.
  eexists. split; [vm_compute; reflexivity|]. split.
  - exists " cuda:device". split; [cbn; tauto|reflexivity].
  - reflexivity.
Qed.

(** * Every run: exit codes *)

Lemma tame_mono {A : Type} (p : res A) :
  forall n m, (n <= m)%nat -> tame p n -> tame p m.
Proof.
  induction p as [a s|h s|X c s k IH]; intros n m Hle H; try exact H.
  destruct n as [|n]; [contradiction|].
  destruct m as [|m]; [lia|].
  intros x. apply (IH x n m); [lia|apply H].
Qed.

Lemma tame_bind_res {A B : Type} (r : res A) (f : A -> M B) :
  forall n1 n2,
    tame r n1 -> (forall a s, tame (f a s) n2) ->
    tame (bind_res r f) (n1 + n2).
Proof.
  induction r as [a s|h s|X c s k IH]; intros n1 n2 Hr Hf.
  - cbn [bind_res]. apply (tame_mono _ n2); [lia|apply Hf].
  - exact Hr.
  - destruct n1 as [|n1]; [contradiction|].
    cbn [bind_res tame Nat.add]. intros x. apply IH; [apply Hr|exact Hf].
Qed.

Lemma tame_bind {A B : Type} (m : M A) (f : A -> M B) s n1 n2 :
  tame (m s) n1 -> (forall a s', tame (f a s') n2) ->
  tame (bind m f s) (n1 + n2).
Proof. apply tame_bind_res. Qed.

Lemma tame_if {A : Type} (c : bool) (m1 m2 : M A) s n1 n2 :
  tame (m1 s) n1 -> tame (m2 s) n2 ->
  tame ((if c then m1 else m2) s) (Nat.max n1 n2).
Proof.
  intros H1 H2.
  destruct c; [apply (tame_mono _ n1)|apply (tame_mono _ n2)];
    (lia || assumption).
Qed.

Lemma tame_option {A B : Type} (o : option B) (m1 m2 : M A) s n1 n2 :
  tame (m1 s) n1 -> tame (m2 s) n2 ->
  tame ((match o with Some _ => m1 | None => m2 end) s) (Nat.max n1 n2).
Proof.
  intros H1 H2.
  destruct o; [apply (tame_mono _ n1)|apply (tame_mono _ n2)];
    (lia || assumption).
Qed.

(** A call that completes locally. *)
Ltac tame_local :=
  intros;
  lazymatch goal with
  | |- tame (?f _ _ _ _) _ => unfold f
  | |- tame (?f _ _ _) _ => unfold f
  | |- tame (?f _ _) _ => unfold f
  | |- tame (?f _) _ => unfold f
  end;
  repeat match goal with
         | |- context [match ?x with _ => _ end] => destruct x
         end;
  cbn [tame]; first [exact I | discriminate | intros; exact I].

Lemma tame_get {A : Type} (f : state -> A) s : tame (get f s) 0.
Proof. exact I. Qed.
Lemma tame_var x s : tame (var x s) 0.
Proof. exact I. Qed.
Lemma tame_skip s : tame (skip s) 0.
Proof. exact I. Qed.
Lemma tame_return_0 {A : Type} s : tame (@c_return A 0 s) 0.
Proof. cbn. discriminate. Qed.
Lemma tame_Info_create s : tame (MPI_Info_create s) 0.
Proof. exact I. Qed.
Lemma tame_Info_set key value s : tame (MPI_Info_set key value s) 0.
Proof. tame_local. Qed.
Lemma tame_Info_free s : tame (MPI_Info_free s) 0.
Proof. tame_local. Qed.
Lemma tame_Group_from_session_pset pset s :
  tame (MPI_Group_from_session_pset pset s) 0.
Proof. tame_local. Qed.
Lemma tame_Group_free s : tame (MPI_Group_free s) 0.
Proof. tame_local. Qed.
Lemma tame_Comm_size c x s : tame (MPI_Comm_size c x s) 0.
Proof. tame_local. Qed.
Lemma tame_Session_finalize s : tame (MPI_Session_finalize s) 0.
Proof. tame_local. Qed.
Lemma tame_malloc e x size s : tame (malloc e x size s) 0.
Proof. tame_local. Qed.
Lemma tame_free x s : tame (free x s) 0.
Proof. tame_local. Qed.
Lemma tame_store x v s : tame (store x v s) 0.
Proof. tame_local. Qed.
Lemma tame_load x s : tame (load x s) 0.
Proof. tame_local. Qed.
Lemma tame_assert c s : tame (assert c s) 0.
Proof. tame_local. Qed.
Lemma tame_printf msg s : tame (printf msg s) 0.
Proof. exact I. Qed.
Lemma tame_cudaMallocManaged e x s : tame (cudaMallocManaged e x s) 0.
Proof. tame_local. Qed.
Lemma tame_cudaMalloc e x s : tame (cudaMalloc e x s) 0.
Proof. tame_local. Qed.
Lemma tame_cudaMemcpyAsync d r dir s : tame (cudaMemcpyAsync d r dir s) 0.
Proof. tame_local. Qed.
Lemma tame_cudaStreamSynchronize s : tame (cudaStreamSynchronize s) 0.
Proof. exact I. Qed.
Lemma tame_cudaFree x s : tame (cudaFree x s) 0.
Proof. tame_local. Qed.

(** A call of the whole group. *)
Lemma tame_Comm_create_from_group tag c s :
  tame (MPI_Comm_create_from_group tag c s) 1.
Proof. tame_local. Qed.
Lemma tame_Allreduce buf op c s : tame (MPI_Allreduce_in_place buf op c s) 1.
Proof. tame_local. Qed.
Lemma tame_Comm_disconnect c s : tame (MPI_Comm_disconnect c s) 1.
Proof. tame_local. Qed.

Create HintDb tame_calls.
#[local] Hint Resolve tame_get tame_var tame_skip tame_return_0
  tame_Info_create tame_Info_set tame_Info_free tame_Group_from_session_pset
  tame_Group_free tame_Comm_size tame_Session_finalize tame_malloc tame_free
  tame_store tame_load tame_assert tame_printf tame_cudaMallocManaged
  tame_cudaMalloc tame_cudaMemcpyAsync tame_cudaStreamSynchronize
  tame_cudaFree tame_Comm_create_from_group tame_Allreduce
  tame_Comm_disconnect : tame_calls.

Ltac tame_go :=
  cbv beta;
  lazymatch goal with
  | |- tame (bind ?m ?f ?s) _ =>
      eapply (tame_bind m f s); [tame_go|intros; tame_go]
  | |- tame ((if ?c then ?m1 else ?m2) ?s) _ =>
      first [eapply (tame_if c m1 m2 s)|eapply (tame_option c m1 m2 s)];
      tame_go
  | |- _ => solve [eauto with tame_calls]
  end.

Lemma after_query_main_tame e s : tame (after_query_main e s) rounds_of_main.
Proof.
  eapply tame_mono;
    [|unfold after_query_main, create_system_comm, check_cuda_awareness,
        execute, teardown; tame_go].
  cbv. lia.
Qed.

(** [main] is lines 23-53, then the rest. *)
Lemma start_split e :
  start e = bind_res (after_query e) (fun _ => after_query_main e).
Proof.
  unfold start, main, after_query, after_query_main.
  cbv beta delta [bind]. reflexivity.
Qed.

Lemma start_tame e : parse_alloc_fails e = false -> tame (start e) rounds_of_main.
Proof.
  intros Hok. destruct (after_query_flags e Hok) as [s [Hrun _]].
  rewrite start_split, Hrun. apply after_query_main_tame.
Qed.

Lemma start_parse_fails e :
  parse_alloc_fails e = true ->
  exists s,
    start e = Stop (Return 1) s
    /\ existsb is_collective (trace s) = false.
Proof.
  intros Hfail.
  destruct e as [[v|] [|b0 l] c]; cbn in Hfail; try discriminate.
  apply negb_true_iff in Hfail. subst b0.
  unfold start, main. cbv [supported_kinds]. sym_run.
  eexists. split; reflexivity.
Qed.

Lemma collective_round_inv ps ps' :
  collective_round ps = Some ps' ->
  ps' = map (answered (summary (map offered ps))) ps
  /\ Forall (fun p => pending p <> None) ps.
Proof.
  unfold collective_round. destruct ps as [|p0 ps0]; [discriminate|].
  set (ps := p0 :: ps0).
  destruct (pending p0) as [sg|]; [|discriminate].
  destruct (forallb (waits_for sg) ps) eqn:Hall; [|discriminate].
  intros H.
  assert (H' : ps' = map (resume (map offered ps)) ps) by congruence.
  split.
  - rewrite H'. apply map_ext. intros p. apply resume_answered.
  - rewrite forallb_forall in Hall. apply Forall_forall. intros p Hp.
    specialize (Hall p Hp). unfold waits_for in Hall.
    destruct (pending p); discriminate.
Qed.


Lemma tame_within {A : Type} (p : res A) :
  forall n, tame p n -> within p n.
Proof.
  induction p as [a s|h s|X c s k IH]; intros n H; try exact I.
  destruct n as [|n]; [contradiction|]. intros x. apply IH, H.
Qed.

Lemma within_answered a (p : proc) n :
  within p n -> within (answered a p) (pred n).
Proof.
  destruct p as [u s|h s|X c s k]; cbn [answered]; try (intros H; exact H).
  destruct n as [|n]; [contradiction|]. intros H. apply H.
Qed.

(** The run of a group never stops for lack of rounds, and where it stops
    every process is where the answers of the rounds that completed have
    taken it. *)
Lemma run_world_total :
  forall fuel ps,
    Forall (fun p => within p fuel) ps ->
    exists answers,
      run_world fuel ps
      = Some (map (fun p => status_of (snd (play answers p))) ps).
Proof.
  induction fuel as [|fuel IH]; intros ps Htame.
  - exists []. cbn [run_world play snd].
    destruct ps as [|p ps]; [reflexivity|].
    destruct (collective_round (p :: ps)) as [ps'|] eqn:Hround;
      [|reflexivity].
    exfalso. apply collective_round_inv in Hround.
    destruct Hround as [_ Hpend].
    inversion Htame as [|? ? Hp _]; subst.
    inversion Hpend as [|? ? Hq _]; subst.
    destruct p; cbn in Hq; try congruence. exact Hp.
  - cbn [run_world].
    destruct (collective_round ps) as [ps'|] eqn:Hround.
    + apply collective_round_inv in Hround. destruct Hround as [-> _].
      destruct (IH (map (answered (summary (map offered ps))) ps))
        as [answers Hrun].
      { apply Forall_forall. intros q Hq. apply in_map_iff in Hq.
        destruct Hq as [p [<- Hp]]. rewrite Forall_forall in Htame.
        apply (within_answered _ p (S fuel)), Htame, Hp. }
      exists (summary (map offered ps) :: answers).
      rewrite Hrun, map_map. f_equal. apply map_ext. intros p.
      cbn [play]. destruct (play answers (answered _ p)). reflexivity.
    + exists []. reflexivity.
Qed.




(** A group in which the first process cannot get the buffer: it returns 1
    before any collective, and the other process waits in the first
    collective for ever. *)
Example run_with_failed_allocation :
  option_map (map exit_code) (run [no_memory; all_kinds])
  = Some [Some 1; None]
  /\ option_map (map (fun st => existsb is_collective (trace (final_state st))))
       (run [no_memory; all_kinds])
     = Some [false; false].
Proof. split; vm_compute; reflexivity. Qed.

(** * What a process leaves behind *)

(** X1. When every allocation succeeds and the group goes by Managed or
    falls back to System, a process returns 0 and leaves nothing behind:
    its variable [info] holds no object, the group and the three
    communicator handles are null, the session is finalized, no copy is
    queued, and none of the blocks it allocated is live; every block was
    given back once, by [free] when [malloc] had returned it and by
    [cudaFree] when the CUDA runtime had. *)
Theorem exit_0_leaves_nothing_behind (envs : list env) :
  forallb allocs_ok envs = true ->
  negotiation envs <> Device ->
  exists outs,
    run envs = Some outs
    /\ List.length outs = List.length envs
    /\ Forall (fun st =>
                 exit_code st = Some 0
                 /\ let s := final_state st in
                    info s = None
                    /\ wgroup s = false
                    /\ (forall c, comms s c = None)
                    /\ session s = false
                    /\ stream s = []
                    /\ existsb blk_live (heap s) = false
                    /\ map snd (allocated (trace s)) = map blk_kind (heap s)
                    /\ map fst (allocated (trace s))
                       = seq 0 (List.length (heap s))
                    /\ Forall (fun pk =>
                                 exists v,
                                   filter (frees (fst pk)) (trace s)
                                   = [release_of (fst pk) (snd pk) v])
                         (allocated (trace s))
                    /\ List.length (filter is_free (trace s))
                       = List.length (allocated (trace s))) outs.
Proof.
  intros Hok Hk.
  destruct (run_all (fun n k s =>
             k <> Device ->
             info s = None
             /\ wgroup s = false
             /\ (forall c, comms s c = None)
             /\ session s = false
             /\ stream s = []
             /\ existsb blk_live (heap s) = false
             /\ map snd (allocated (trace s)) = map blk_kind (heap s)
             /\ map fst (allocated (trace s)) = seq 0 (List.length (heap s))
             /\ Forall (fun pk =>
                          exists v,
                            filter (frees (fst pk)) (trace s)
                            = [release_of (fst pk) (snd pk) v])
                  (allocated (trace s))
             /\ List.length (filter is_free (trace s))
                = List.length (allocated (trace s))) envs Hok)
    as [outs [Hrun [Hlen Hall]]].
  { intros e s _ [Htr _ _ _ _ _ Hst Hh Hi Hg Hs Hc] Hk'.
    rewrite Htr, Hh, Hi, Hg, Hs, Hst.
    unfold expected_trace, expected_heap.
    destruct (negotiation envs); [|congruence|];
      (split; [reflexivity|]); (split; [reflexivity|]);
      (split; [intros c; rewrite Hc; destruct c; reflexivity|]);
      (split; [reflexivity|]); (split; [reflexivity|]);
      destruct (supported_kinds e);
      (split; [reflexivity|]); (split; [reflexivity|]);
      (split; [reflexivity|]); (split; [|reflexivity]);
      repeat constructor; eexists; reflexivity. }
  exists outs. split; [exact Hrun|]. split; [exact Hlen|].
  eapply Forall_impl; [|exact Hall].
  intros st [Hend H]. split; [|apply H, Hk].
  rewrite Hend. destruct (negotiation envs); (reflexivity || congruence).
Qed.

Lemma exit_0_leaves_nothing_behind_witness :
  exists outs,
    run [all_kinds; system_only; no_key] = Some outs
    /\ Forall (fun st => existsb blk_live (heap (final_state st)) = false)
         outs.
Proof.
  destruct (exit_0_leaves_nothing_behind [all_kinds; system_only; no_key]
              eq_refl) as [outs [Hrun [_ Hall]]].
  - discriminate.
  - exists outs. split; [exact Hrun|].
    eapply Forall_impl; [|exact Hall].
    intros st H. apply H.
Defined.



(** X3. The processes of a group make the same collective calls in the
    same order, so that none of them waits for another: the creation of
    the communicator for system memory, the AND reduction of the Managed
    flags, the AND reduction of the Device flags unless the first was true,
    the creation of the accelerator communicator if one was agreed on, and
    the sum reduction; then, on the Managed and the fallback path, the
    disconnections, the accelerator communicator first. On the Device path
    the sum reduction is the last collective of every process. *)
Theorem collectives_agree (envs : list env) :
  forallb allocs_ok envs = true ->
  exists outs calls,
    run envs = Some outs
    /\ Forall (fun st =>
                 st = ending (negotiation envs) (final_state st)
                 /\ collectives (trace (final_state st)) = calls) outs
    /\ (5 <= List.length calls <= 6)%nat
    /\ let n := List.length envs in
       let world := comm_for System n in
       calls
       = match negotiation envs with
         | Managed =>
             [SigCommCreate (example_tag System) (Some "system");
              SigAllreduce MPI_LAND world;
              SigCommCreate (example_tag Managed) (Some "cuda:managed");
              SigAllreduce MPI_SUM (comm_for Managed n);
              SigCommDisconnect (comm_for Managed n);
              SigCommDisconnect world]
         | Device =>
             [SigCommCreate (example_tag System) (Some "system");
              SigAllreduce MPI_LAND world;
              SigAllreduce MPI_LAND world;
              SigCommCreate (example_tag Device) (Some "cuda:device");
              SigAllreduce MPI_SUM (comm_for Device n)]
         | System =>
             [SigCommCreate (example_tag System) (Some "system");
              SigAllreduce MPI_LAND world;
              SigAllreduce MPI_LAND world;
              SigAllreduce MPI_SUM world;
              SigCommDisconnect world]
         end.
Proof.
  intros Hok.
  destruct (run_all (fun n k s =>
             collectives (trace s) = map fst (plan k n)) envs Hok)
    as [outs [Hrun [_ Hall]]].
  { intros e s _ Hfin. rewrite (fin_trace _ _ _ _ Hfin).
    unfold expected_trace.
    destruct (supported_kinds e), (negotiation envs); reflexivity. }
  exists outs, (map fst (plan (negotiation envs) (List.length envs))).
  split; [exact Hrun|]. split; [exact Hall|].
  destruct (negotiation envs); cbn; split; (lia || reflexivity).
Qed.

Lemma collectives_agree_witness :
  exists outs calls,
    run [device_only; all_kinds; device_only] = Some outs
    /\ Forall (fun st => collectives (trace (final_state st)) = calls) outs
    /\ List.length calls = 5%nat.
Proof.
  destruct (collectives_agree [device_only; all_kinds; device_only] eq_refl)
    as [outs [calls [Hrun [Hall [_ Hcalls]]]]].
  exists outs, calls. split; [exact Hrun|]. split.
  - eapply Forall_impl; [|exact Hall]. intros st [_ H]. exact H.
  - rewrite Hcalls. reflexivity.
Defined.

(** X4. The warning of line 99, 38 characters and a newline, is printed,
    once, by every process exactly when the group falls back to system
    memory; nothing else is printed. *)
Theorem warning_iff_fallback (envs : list env) :
  forallb allocs_ok envs = true ->
  exists outs,
    run envs = Some outs
    /\ Forall (fun st =>
                 printed (trace (final_state st))
                 = match negotiation envs with
                   | System =>
                       ["Warning: cuda alloc kind not supported" ++ newline]
                   | _ => []
                   end
                 /\ Forall (fun msg =>
                              String.length msg = 39%nat
                              /\ String.get 38%nat msg = Some (ascii_of_nat 10))
                      (printed (trace (final_state st)))) outs.
Proof.
  intros Hok.
  destruct (run_all (fun n k s =>
             printed (trace s)
             = match k with
               | System =>
                   ["Warning: cuda alloc kind not supported" ++ newline]
               | _ => []
               end
             /\ Forall (fun msg =>
                          String.length msg = 39%nat
                          /\ String.get 38%nat msg = Some (ascii_of_nat 10))
                  (printed (trace s))) envs Hok)
    as [outs [Hrun [_ Hall]]].
  { intros e s _ Hfin. rewrite (fin_trace _ _ _ _ Hfin).
    unfold expected_trace.
    destruct (supported_kinds e), (negotiation envs);
      (split; [reflexivity|]); repeat constructor. }
  exists outs. split; [exact Hrun|].
  eapply Forall_impl; [|exact Hall]. intros st [_ H]. exact H.
Qed.

Lemma warning_iff_fallback_witness :
  exists outs,
    run [all_kinds; system_only] = Some outs
    /\ Forall (fun st =>
                 List.length (printed (trace (final_state st))) = 1%nat) outs.
Proof.
  destruct (warning_iff_fallback [all_kinds; system_only] eq_refl)
    as [outs [Hrun Hall]].
  exists outs. split; [exact Hrun|].
  eapply Forall_impl; [|exact Hall].
  intros st [H _].
  change (negotiation [all_kinds; system_only]) with System in H.
  rewrite H. reflexivity.
Defined.



(** * Runs in which an allocation fails *)

Lemma collective_round_stuck ps :
  Exists (fun p => pending p = None) ps -> collective_round ps = None.
Proof.
  intros H. unfold collective_round.
  destruct ps as [|p0 ps0]; [reflexivity|].
  destruct (pending p0) as [sg|] eqn:Hp0; [|reflexivity].
  replace (forallb (waits_for sg) (p0 :: ps0)) with false; [reflexivity|].
  symmetry. apply not_true_is_false. intros Hall.
  rewrite forallb_forall in Hall. apply Exists_exists in H.
  destruct H as [p [Hin Hp]]. specialize (Hall p Hin).
  unfold waits_for in Hall. rewrite Hp in Hall. discriminate.
Qed.

(** Line 37: the process returns 1 with the session open and the info of
    the session not freed. *)
Lemma start_parse_fails_state e :
  parse_alloc_fails e = true ->
  exists v s,
    supported_kinds e = Some v
    /\ start e = Stop (Return 1) s
    /\ session s = true
    /\ info s = Some [("mpi_memory_alloc_kinds", v)]
    /\ heap s = []
    /\ trace s
       = [EvInfoCreate;
          EvInfoSet "mpi_memory_alloc_kinds" "system,cuda:device,cuda:managed";
          EvSessionInit; EvInfoFree; EvSessionGetInfo;
          EvInfoGetString "mpi_memory_alloc_kinds" 0 true;
          EvMalloc (Z.of_nat (S (String.length v))) None].
Proof.
  intros Hfail.
  destruct e as [[v|] [|b0 l] c]; cbn in Hfail; try discriminate.
  apply negb_true_iff in Hfail. subst b0.
  exists v. eexists. split; [reflexivity|]. split.
  - unfold start, main. cbv [supported_kinds]. sym_run. reflexivity.
  - repeat split.
Qed.

(** Line 60: a process that has its flags waits for the group. *)
Lemma start_enters_group e :
  parse_alloc_fails e = false ->
  exists s k,
    start e
    = Yield (CommCreateFromGroup (example_tag System) (Some "system")) s k
    /\ existsb is_collective (trace s) = false
    /\ existsb is_finalize (trace s) = false
    /\ session s = true.
Proof.
  intros Hok.
  destruct e as [[v|] [|b0 l] c]; cbn in Hok;
    try (apply negb_false_iff in Hok; subst b0);
    do 2 eexists;
    (split; [unfold start, main; cbv [supported_kinds]; sym_run; reflexivity
            |repeat split]).
Qed.

Lemma run_stuck_at_start envs :
  Exists (fun e => parse_alloc_fails e = true) envs ->
  run envs = Some (map (fun e => status_of (start e)) envs).
Proof.
  intros H. unfold run, rounds_of_main. cbn [run_world].
  rewrite collective_round_stuck; [rewrite map_map; reflexivity|].
  apply Exists_exists in H. destruct H as [e [Hin Hfail]].
  apply Exists_exists. exists (start e). split; [apply in_map, Hin|].
  destruct (start_parse_fails e Hfail) as [s [-> _]]. reflexivity.
Qed.

(** X6. When the buffer for the value cannot be had in some process of a
    group, that process returns 1 at once, with the session not finalized
    and the info of the session not freed, and every other process stays
    for ever in the first collective, the creation of the communicator for
    system memory: no process returns 0. *)
Theorem early_return_strands_the_group (envs : list env) :
  Exists (fun e => parse_alloc_fails e = true) envs ->
  exists outs,
    run envs = Some outs
    /\ Forall2 (fun e st =>
                  let s := final_state st in
                  existsb is_collective (trace s) = false
                  /\ existsb is_finalize (trace s) = false
                  /\ session s = true
                  /\ if parse_alloc_fails e
                     then exit_code st = Some 1
                          /\ info s <> None
                          /\ heap s = []
                     else st
                          = Blocked
                              (SigCommCreate (example_tag System)
                                 (Some "system")) s) envs outs.
Proof.
  intros H. rewrite (run_stuck_at_start envs H).
  eexists. split; [reflexivity|].
  clear H. induction envs as [|e envs IH]; [constructor|].
  cbn [map]. constructor; [|exact IH].
  destruct (parse_alloc_fails e) eqn:Hfail.
  - destruct (start_parse_fails_state e Hfail)
      as [v [s [_ [-> [Hs [Hi [Hh Htr]]]]]]].
    cbn [status_of final_state exit_code]. rewrite Htr, Hs, Hi, Hh.
    repeat split. discriminate.
  - destruct (start_enters_group e Hfail) as [s [k [-> [Htr [Hf Hs]]]]].
    cbn [status_of final_state sig_of]. rewrite Htr, Hf, Hs.
    repeat split.
Qed.

Lemma early_return_strands_the_group_witness :
  exists outs,
    run [all_kinds; no_memory; no_key] = Some outs
    /\ map exit_code outs = [None; Some 1; None].
Proof.
  destruct (early_return_strands_the_group [all_kinds; no_memory; no_key])
    as [outs [Hrun Hall]].
  - apply Exists_cons_tl, Exists_cons_hd. reflexivity.
  - exists outs. split; [exact Hrun|].
    inversion Hall as [|e1 st1 l1 o1 H1 Hall1]; subst.
    inversion Hall1 as [|e2 st2 l2 o2 H2 Hall2]; subst.
    inversion Hall2 as [|e3 st3 l3 o3 H3 Hall3]; subst.
    inversion Hall3; subst.
    destruct H1 as [_ [_ [_ H1]]], H2 as [_ [_ [_ H2]]], H3 as [_ [_ [_ H3]]].
    cbn in H1, H2, H3. destruct H2 as [H2 _].
    cbn [map]. rewrite H1, H2, H3. reflexivity.
Defined.

Lemma run_world_aligned_until rounds :
  forall fuel ps,
    (List.length rounds <= fuel)%nat ->
    aligned_until rounds ps ->
    run_world fuel ps
    = Some (map (fun p => status_of (snd (play (map summary rounds) p))) ps).
Proof.
  induction rounds as [|sents rest IH]; intros fuel ps Hfuel Hal.
  - cbn [aligned_until] in Hal. destruct fuel; cbn [run_world]; rewrite Hal;
      reflexivity.
  - destruct Hal as [[sg Hsg] [Hoff Hrest]].
    destruct ps as [|p ps'].
    + destruct fuel; reflexivity.
    + destruct fuel as [|fuel]; [simpl in Hfuel; lia|].
      cbn [run_world].
      rewrite (collective_round_all sg) by (assumption || discriminate).
      rewrite Hoff.
      rewrite (IH fuel _ ltac:(simpl in Hfuel; lia) Hrest).
      rewrite map_map. f_equal. apply map_ext. intros q.
      cbn [map play]. rewrite <- resume_answered.
      destruct (play (map summary rest) (resume sents q)); reflexivity.
Qed.

Lemma aligned_until_of_play {A : Type} (xs : list A) :
  forall (calls : list (signature * (A -> Z))) (f : A -> proc),
    (forall x, In x xs ->
       fst (play (map (fun pc => summary (map (snd pc) xs)) calls) (f x))
       = map (fun pc => (Some (fst pc), snd pc x)) calls) ->
    collective_round
      (map (fun x =>
              snd (play (map (fun pc => summary (map (snd pc) xs)) calls)
                     (f x))) xs) = None ->
    aligned_until (map (fun pc => map (snd pc) xs) calls) (map f xs).
Proof.
  induction calls as [|[sg c] calls IH]; intros f H Hstuck.
  - exact Hstuck.
  - cbn [map aligned_until fst snd]. split; [|split].
    + exists sg. apply Forall_forall. intros p Hp.
      apply in_map_iff in Hp. destruct Hp as [x [<- Hx]].
      pose proof (H x Hx) as H1. cbn [map play fst snd] in H1.
      destruct (play _ (answered _ (f x))). simpl in H1. congruence.
    + rewrite map_map. apply map_ext_in. intros x Hx.
      pose proof (H x Hx) as H1. cbn [map play fst snd] in H1.
      destruct (play _ (answered _ (f x))). simpl in H1. congruence.
    + rewrite map_map. apply (IH (fun x => resume (map c xs) (f x))).
      * intros x Hx. pose proof (H x Hx) as H1.
        cbn [map play fst snd] in H1. rewrite resume_answered.
        destruct (play _ (answered _ (f x))). simpl in H1.
        simpl. congruence.
      * erewrite map_ext; [exact Hstuck|].
        intros x. cbn [map play fst snd]. rewrite resume_answered.
        destruct (play _ (answered _ (f x))). reflexivity.
Qed.

(** The cases of what the surroundings decide, for a process that has
    its flags. *)
Ltac any_envs e Hparse :=
  destruct e as [[v|] [|b0 [|b1 l]] c]; cbn in Hparse;
  try (apply negb_false_iff in Hparse; subst);
  repeat match goal with b : bool |- _ => destruct b end;
  unfold start, main;
  cbn [before_reduction buffer_alloc_fails first_free supported_kinds
       malloc_ok cuda_alloc_ok nth negb].

Ltac sym_prefix :=
  eexists; split;
  [ cbv [negotiation_plan firstn plan map fst snd managed_aware device_aware
         capabilities zero one supported_kinds];
    sym_run
  | first [ do 2 eexists; reflexivity | eexists; repeat split ] ].

(** Lines 55-108 when Managed is agreed on: the process is at the sum
    reduction, or has stopped at the store of line 109. *)
Lemma play_managed_negotiation e n c1 t1 n2 t2 c3 t3 :
  parse_alloc_fails e = false ->
  exists q,
    play [ {| members := n; conj := c1; total := t1 |};
           {| members := n2; conj := 1; total := t2 |};
           {| members := n; conj := c3; total := t3 |} ] (start e)
    = (map (fun pc => (Some (fst pc), snd pc e)) (negotiation_plan Managed n),
       q)
    /\ before_reduction Managed n e q.
Proof.
  intros Hok. any_envs e Hok; sym_prefix.
Qed.

(** Lines 55-134 when Device is agreed on: the process is at the sum
    reduction, or has stopped at the store of line 123 or at the
    reduction. *)
Lemma play_device_negotiation e n c1 t1 n2 t2 n3 t3 c4 t4 :
  parse_alloc_fails e = false ->
  exists q,
    play [ {| members := n; conj := c1; total := t1 |};
           {| members := n2; conj := 0; total := t2 |};
           {| members := n3; conj := 1; total := t3 |};
           {| members := n; conj := c4; total := t4 |} ] (start e)
    = (map (fun pc => (Some (fst pc), snd pc e)) (negotiation_plan Device n),
       q)
    /\ before_reduction Device n e q.
Proof.
  intros Hok. any_envs e Hok; sym_prefix.
Qed.

(** The same on the fallback path. *)
Lemma play_system_negotiation e n c1 t1 n2 t2 n3 t3 :
  parse_alloc_fails e = false ->
  exists q,
    play [ {| members := n; conj := c1; total := t1 |};
           {| members := n2; conj := 0; total := t2 |};
           {| members := n3; conj := 0; total := t3 |} ] (start e)
    = (map (fun pc => (Some (fst pc), snd pc e)) (negotiation_plan System n),
       q)
    /\ before_reduction System n e q.
Proof.
  intros Hok. any_envs e Hok; sym_prefix.
Qed.

Lemma process_before_reduction envs e :
  parse_alloc_fails e = false ->
  exists q,
    play (map summary (negotiation_rounds envs)) (start e)
    = (map (fun pc => (Some (fst pc), snd pc e))
         (negotiation_plan (negotiation envs) (List.length envs)),
       q)
    /\ before_reduction (negotiation envs) (List.length envs) e q.
Proof.
  intros Hok. unfold negotiation_rounds.
  destruct (negotiation_cases envs) as [[-> Hm]|[[-> [Hm Hd]]|[-> [Hm Hd]]]];
    cbv [negotiation_plan firstn plan map fst snd summary];
    fold (map zero envs) (map one envs)
      (map managed_aware envs) (map device_aware envs);
    rewrite ?length_map, ?land_common;
    change (forallb (fun e => truthy (managed_aware e)) envs)
      with (common envs Managed);
    change (forallb (fun e => truthy (device_aware e)) envs)
      with (common envs Device);
    rewrite ?Hm, ?Hd.
  - apply play_managed_negotiation; assumption.
  - apply play_device_negotiation; assumption.
  - apply play_system_negotiation; assumption.
Qed.

(** A process that stalls has stopped; one that does not is inside the
    sum reduction. *)
Lemma before_reduction_stalls k n e q :
  before_reduction k n e q ->
  if stalls k e
  then exists s, q = Stop Fault s
  else at_sum k n q.
Proof.
  unfold before_reduction, stalls.
  destruct k, (buffer_alloc_fails e), (cuda_alloc_ok e); cbn [negb orb];
    try (intros [s [H _]]; exists s; exact H); auto.
Qed.

Lemma Forall2_map_r {A B : Type} (R : A -> B -> Prop) (f : A -> B) l :
  (forall a, In a l -> R a (f a)) -> Forall2 R l (map f l).
Proof.
  induction l as [|a l IH]; intros H; cbn [map]; constructor.
  - apply H. left. reflexivity.
  - apply IH. intros a' Ha'. apply H. right. exact Ha'.
Qed.

(** The run of a group in which a process lacks a buffer: every process
    is where the collectives before the sum reduction have taken it. *)
Lemma run_stuck_before_reduction envs :
  (forall e, In e envs -> parse_alloc_fails e = false) ->
  Exists (fun e => stalls (negotiation envs) e = true) envs ->
  run envs
  = Some (map (fun e =>
                 status_of
                   (snd (play (map summary (negotiation_rounds envs))
                           (start e)))) envs).
Proof.
  intros Hp Hfail. unfold run.
  rewrite (run_world_aligned_until (negotiation_rounds envs)).
  - rewrite map_map. reflexivity.
  - unfold negotiation_rounds, negotiation_plan. rewrite length_map.
    destruct (negotiation envs); cbn; unfold rounds_of_main; lia.
  - unfold negotiation_rounds. apply aligned_until_of_play.
    + intros e He.
      destruct (process_before_reduction envs e (Hp e He)) as [q [Hplay _]].
      unfold negotiation_rounds in Hplay. rewrite map_map in Hplay.
      rewrite Hplay. reflexivity.
    + apply collective_round_stuck.
      apply Exists_exists in Hfail. destruct Hfail as [e [He Hf]].
      apply Exists_exists.
      exists (snd (play
                     (map (fun pc => summary (map (snd pc) envs))
                        (negotiation_plan (negotiation envs)
                           (List.length envs))) (start e))).
      split.
      * apply (in_map (fun x =>
                         snd (play
                                (map (fun pc => summary (map (snd pc) envs))
                                   (negotiation_plan (negotiation envs)
                                      (List.length envs))) (start x)))).
        exact He.
      * destruct (process_before_reduction envs e (Hp e He))
          as [q [Hplay Hq]].
        unfold negotiation_rounds in Hplay. rewrite map_map in Hplay.
        rewrite Hplay. cbn [snd].
        apply before_reduction_stalls in Hq. rewrite Hf in Hq.
        destruct Hq as [s ->]. reflexivity.
Qed.

(** X7. What line 122's [malloc] returns is not looked at. When no
    process lacks the buffer for the value and Managed is not agreed on, a
    process whose [malloc] of line 122 returns NULL goes through the whole
    negotiation and stops at the store of line 123, through the null
    pointer, having stored nothing; every other process of the group then
    stays for ever in the sum reduction, unless it has no device buffer to
    reduce, in which case it stops at line 134. *)
Theorem unchecked_malloc_strands_the_group (envs : list env) :
  forallb (fun e => negb (parse_alloc_fails e)) envs = true ->
  negotiation envs <> Managed ->
  Exists (fun e => buffer_alloc_fails e = true) envs ->
  exists outs,
    run envs = Some outs
    /\ Forall2 (fun e st =>
                  let s := final_state st in
                  if buffer_alloc_fails e
                  then st = Aborted Fault s
                       /\ ptrs s system_buf = None
                       /\ host_stores (trace s) = []
                       /\ last (trace s) EvGroupFree = EvMalloc 4 None
                  else if stalls (negotiation envs) e
                  then st = Aborted Fault s
                       /\ ptrs s device_buf = None
                       /\ sum_reductions (trace s) = []
                  else st
                       = Blocked
                           (SigAllreduce MPI_SUM
                              (comm_for (negotiation envs)
                                 (List.length envs))) s) envs outs.
Proof.
  intros Hok Hk Hfail. rewrite forallb_forall in Hok.
  assert (Hparse : forall e, In e envs -> parse_alloc_fails e = false).
  { intros e He. apply negb_true_iff, Hok, He. }
  assert (Hstall : Exists (fun e => stalls (negotiation envs) e = true) envs).
  { eapply Exists_impl; [|exact Hfail]. intros e He. unfold stalls.
    rewrite He. destruct (negotiation envs); (reflexivity || congruence). }
  rewrite (run_stuck_before_reduction envs Hparse Hstall).
  eexists. split; [reflexivity|].
  apply Forall2_map_r. intros e He.
  destruct (process_before_reduction envs e (Hparse e He))
    as [q [Hplay Hq]].
  rewrite Hplay. cbn [snd]. revert Hq. unfold before_reduction, stalls.
  destruct (negotiation envs); [| |congruence];
    destruct (buffer_alloc_fails e); try destruct (cuda_alloc_ok e);
    cbn [negb orb];
    try (intros [s [-> Hs]]; cbn [status_of final_state];
         split; [reflexivity|]; first [exact Hs | tauto]);
    intros [s [c ->]]; reflexivity.
Qed.

Lemma unchecked_malloc_strands_the_group_witness :
  exists outs,
    run [device_only; no_buffer; all_kinds] = Some outs
    /\ map exit_code outs = [None; None; None]
    /\ exists st, nth_error outs 1 = Some st
                  /\ ptrs (final_state st) system_buf = None.
Proof.
  destruct (unchecked_malloc_strands_the_group
              [device_only; no_buffer; all_kinds])
    as [outs [Hrun Hall]].
  - reflexivity.
  - discriminate.
  - apply Exists_cons_tl, Exists_cons_hd. reflexivity.
  - exists outs. split; [exact Hrun|].
    inversion Hall as [|e1 st1 l1 o1 H1 Hall1]; subst.
    inversion Hall1 as [|e2 st2 l2 o2 H2 Hall2]; subst.
    inversion Hall2 as [|e3 st3 l3 o3 H3 Hall3]; subst.
    inversion Hall3; subst.
    cbn in H1, H2, H3. destruct H2 as [H2 [Hp _]].
    split.
    + cbn [map]. rewrite H1, H2, H3. reflexivity.
    + exists st2. split; [reflexivity|exact Hp].
Defined.

(** * The flags of a value made of two *)

Lemma split_on_nonempty d s : split_on d s <> [].
Proof.
  destruct s as [|c s]; cbn [split_on]; [discriminate|].
  destruct (Ascii.eqb c d); [discriminate|].
  destruct (split_on d s); discriminate.
Qed.

Lemma split_on_app d v w :
  split_on d (v ++ String d w) = (split_on d v ++ split_on d w)%list.
Proof.
  induction v as [|c v IH]; cbn [String.append split_on app].
  - rewrite Ascii.eqb_refl. reflexivity.
  - destruct (Ascii.eqb c d); [rewrite IH; reflexivity|].
    rewrite IH. pose proof (split_on_nonempty d v) as Hne.
    destruct (split_on d v) as [|tok toks]; [congruence|reflexivity].
Qed.

Lemma kinds_loop_existsb s aware :
  kinds_loop (Some s) aware
  = (if existsb (names_kind Managed) (split_on "," s) then 1 else fst aware,
     if existsb (names_kind Device) (split_on "," s) then 1 else snd aware).
Proof. apply (kinds_loop_tokens (String.length s)). lia. Qed.

(** X8. Lines 42-49 on a value [v,w] do what they do on [w] from the flags
    they leave on [v]: a flag is set by either part and cleared by none, so
    that neither the order of the two parts nor a part given twice
    matters. *)
Theorem flags_of_joined_values (v w : string) (aware : Z * Z) :
  kinds_loop (Some (v ++ "," ++ w)) aware
  = kinds_loop (Some w) (kinds_loop (Some v) aware)
  /\ kinds_loop (Some (v ++ "," ++ w)) aware
     = kinds_loop (Some (w ++ "," ++ v)) aware
  /\ kinds_loop (Some (v ++ "," ++ v)) aware = kinds_loop (Some v) aware
  /\ (fst aware = 1 -> fst (kinds_loop (Some v) aware) = 1)
  /\ (snd aware = 1 -> snd (kinds_loop (Some v) aware) = 1).
Proof.
  change ("," ++ w) with (String "," w).
  change ("," ++ v) with (String "," v).
  rewrite !kinds_loop_existsb, !split_on_app, !existsb_app.
  cbn [fst snd].
  destruct (existsb (names_kind Managed) (split_on "," v)),
    (existsb (names_kind Managed) (split_on "," w)),
    (existsb (names_kind Device) (split_on "," v)),
    (existsb (names_kind Device) (split_on "," w));
    cbn [orb]; repeat split; auto.
Qed.

(** X9. A process whose allocations succeed initializes the session once,
    with the request for the three kinds as the first thing it does, and
    every call that needs the session comes after. The group of
    [mpi://WORLD] is obtained once and freed once, after the last
    communicator has been created from it. On the Managed and the fallback
    path the session is finalized once, as the last thing the process
    does; on the Device path it is not finalized. *)
Theorem session_brackets_the_run (envs : list env) :
  forallb allocs_ok envs = true ->
  exists outs,
    run envs = Some outs
    /\ Forall (fun st =>
                 let tr := trace (final_state st) in
                 let k := negotiation envs in
                 firstn 3 tr
                 = [EvInfoCreate;
                    EvInfoSet "mpi_memory_alloc_kinds"
                      "system,cuda:device,cuda:managed";
                    EvSessionInit]
                 /\ filter is_session_init tr = [EvSessionInit]
                 /\ all_before is_session_init uses_session tr = true
                 /\ filter is_group_made tr
                    = [EvGroupFromSessionPset "mpi://WORLD"]
                 /\ filter is_group_free tr = [EvGroupFree]
                 /\ all_before is_group_made is_comm_create tr = true
                 /\ all_before is_comm_create is_group_free tr = true
                 /\ all_before uses_session is_finalize tr = true
                 /\ (k <> Device ->
                     filter is_finalize tr = [EvSessionFinalize]
                     /\ last tr EvInfoCreate = EvSessionFinalize)
                 /\ (k = Device -> filter is_finalize tr = [])) outs.
Proof.
  intros Hok.
  destruct (run_all (fun n k s =>
             let tr := trace s in
             firstn 3 tr
             = [EvInfoCreate;
                EvInfoSet "mpi_memory_alloc_kinds"
                  "system,cuda:device,cuda:managed";
                EvSessionInit]
             /\ filter is_session_init tr = [EvSessionInit]
             /\ all_before is_session_init uses_session tr = true
             /\ filter is_group_made tr
                = [EvGroupFromSessionPset "mpi://WORLD"]
             /\ filter is_group_free tr = [EvGroupFree]
             /\ all_before is_group_made is_comm_create tr = true
             /\ all_before is_comm_create is_group_free tr = true
             /\ all_before uses_session is_finalize tr = true
             /\ (k <> Device ->
                 filter is_finalize tr = [EvSessionFinalize]
                 /\ last tr EvInfoCreate = EvSessionFinalize)
             /\ (k = Device -> filter is_finalize tr = [])) envs Hok)
    as [outs [Hrun [_ Hall]]].
  { intros e s _ Hfin. cbv zeta. rewrite (fin_trace _ _ _ _ Hfin).
    unfold expected_trace.
    destruct (supported_kinds e), (negotiation envs);
      repeat split; congruence. }
  exists outs. split; [exact Hrun|].
  eapply Forall_impl; [|exact Hall]. intros st [_ H]. exact H.
Qed.

Lemma session_brackets_the_run_witness :
  exists outs,
    run [no_key; all_kinds; system_only] = Some outs
    /\ Forall (fun st =>
                 last (trace (final_state st)) EvInfoCreate
                 = EvSessionFinalize) outs.
Proof.
  destruct (session_brackets_the_run [no_key; all_kinds; system_only]
              eq_refl) as [outs [Hrun Hall]].
  exists outs. split; [exact Hrun|].
  eapply Forall_impl; [|exact Hall].
  intros st [_ [_ [_ [_ [_ [_ [_ [_ [H _]]]]]]]]].
  apply H. discriminate.
Defined.

(** * Every run, whatever the allocations return *)

(** The fallback path when [cudaMalloc] has failed: the copies return an
    error code each, which [main] does not look at, and the process goes on
    to the end. *)
Lemma play_system_no_device e n c1 t1 n2 t2 n3 t3 n4 c4 a5 :
  parse_alloc_fails e = false ->
  buffer_alloc_fails e = false ->
  cuda_alloc_ok e = false ->
  exists s,
    play [ {| members := n; conj := c1; total := t1 |};
           {| members := n2; conj := 0; total := t2 |};
           {| members := n3; conj := 0; total := t3 |};
           {| members := n4; conj := c4; total := wrap_int (Z.of_nat n) |};
           a5 ] (start e)
    = (map (fun pc => (Some (fst pc), snd pc e)) (plan System n),
       Stop (Return 0) s).
Proof.
  intros Hparse Hbuf Hcuda. all_envs e Hparse Hbuf Hcuda.
  all: eexists;
    cbv [plan map fst snd managed_aware device_aware capabilities zero one
         supported_kinds];
    sym_run.
Qed.

Lemma forallb_false_Exists {A : Type} (p : A -> bool) (l : list A) :
  forallb p l = false -> Exists (fun x => p x = false) l.
Proof.
  induction l as [|x l IH]; cbn [forallb]; [discriminate|].
  destruct (p x) eqn:Hx; cbn [andb]; intros H.
  - apply Exists_cons_tl, IH, H.
  - apply Exists_cons_hd, Hx.
Qed.

Lemma Forall2_Exists_l {A B : Type} (R : A -> B -> Prop) (P : A -> Prop)
  l l' :
  Forall2 R l l' -> Exists P l -> exists a b, In b l' /\ R a b /\ P a.
Proof.
  induction 1 as [|a b l l' Hab _ IH]; intros HP; inversion HP; subst.
  - exists a, b. split; [left; reflexivity|]. split; assumption.
  - destruct (IH H0) as [a' [b' [Hin H']]].
    exists a', b'. split; [right; exact Hin|exact H'].
Qed.

Lemma existsb_Forall2_false {A B : Type} (R : A -> B -> Prop)
  (p : B -> bool) l l' :
  Forall2 R l l' -> (forall a b, R a b -> p b = false) ->
  existsb p l' = false.
Proof.
  induction 1 as [|a b l l' Hab _ IH]; intros H; [reflexivity|].
  cbn [existsb]. rewrite (H a b Hab), (IH H). reflexivity.
Qed.

(** A process that has its flags and does not stall passes through the
    collectives of the negotiated path, up to line 167 or, on the Device
    path, to line 137. *)
Lemma process_proceeds envs e :
  parse_alloc_fails e = false ->
  stalls (negotiation envs) e = false ->
  exists s,
    play (map summary (rounds envs)) (start e)
    = (map (fun pc => (Some (fst pc), snd pc e))
         (plan (negotiation envs) (List.length envs)),
       Stop (last_halt (negotiation envs)) s).
Proof.
  intros Hparse Hstall. unfold rounds.
  destruct (negotiation_cases envs) as [[Hk Hm]|[[Hk [Hm Hd]]|[Hk [Hm Hd]]]];
    rewrite Hk in *; cbn [stalls] in Hstall;
    cbv [plan map fst snd summary last_halt];
    fold (map zero envs) (map one envs)
      (map managed_aware envs) (map device_aware envs);
    rewrite ?length_map, ?sum_ones, ?land_common;
    change (forallb (fun e => truthy (managed_aware e)) envs)
      with (common envs Managed);
    change (forallb (fun e => truthy (device_aware e)) envs)
      with (common envs Device);
    rewrite ?Hm, ?Hd.
  - apply negb_false_iff in Hstall.
    edestruct (play_managed e) as [s [H _]]; [exact Hparse|exact Hstall|].
    exists s. exact H.
  - apply orb_false_elim in Hstall. destruct Hstall as [Hbuf Hcuda].
    apply negb_false_iff in Hcuda.
    edestruct (play_device e) as [s [H _]];
      [exact Hparse|exact Hbuf|exact Hcuda|].
    exists s. exact H.
  - destruct (cuda_alloc_ok e) eqn:Hcuda.
    + edestruct (play_system e) as [s [H _]];
        [exact Hparse|exact Hstall|exact Hcuda|].
      exists s. exact H.
    + apply play_system_no_device; assumption.
Qed.

(** The run of a group in which no process lacks a buffer. *)
Lemma run_proceeds envs :
  (forall e, In e envs -> parse_alloc_fails e = false) ->
  (forall e, In e envs -> stalls (negotiation envs) e = false) ->
  exists outs,
    run envs = Some outs
    /\ Forall2 (fun e st =>
                  exists s, st = ending (negotiation envs) s) envs outs.
Proof.
  intros Hp Hs. exists (map (outcome envs) envs). split.
  - unfold run. rewrite (run_world_aligned (rounds envs)).
    + rewrite map_map. reflexivity.
    + unfold rounds. rewrite length_map. apply plan_length.
    + unfold rounds. apply aligned_of_play. intros e He.
      destruct (process_proceeds envs e (Hp e He) (Hs e He)) as [s Hplay].
      unfold rounds in Hplay. rewrite map_map in Hplay.
      rewrite Hplay. split; reflexivity.
  - apply Forall2_map_r. intros e He.
    destruct (process_proceeds envs e (Hp e He) (Hs e He)) as [s Hplay].
    exists s. unfold outcome. rewrite Hplay.
    destruct (negotiation envs); reflexivity.
Qed.

Lemma negotiation_nil_managed envs :
  negotiation envs <> Managed -> envs <> [].
Proof. intros H ->. apply H. reflexivity. Qed.

(** How a run ends in which the group does not complete: some process
    has not returned 0, and none has failed an assertion. *)
Lemma run_incomplete envs :
  completes envs = false ->
  exists outs,
    run envs = Some outs
    /\ Exists (fun st => exit_code st <> Some 0) outs
    /\ existsb assert_failed outs = false.
Proof.
  unfold completes. intros Hc.
  destruct (forallb (fun e => negb (parse_alloc_fails e)) envs) eqn:Hparse.
  - cbn [andb] in Hc. rewrite forallb_forall in Hparse.
    assert (Hp : forall e, In e envs -> parse_alloc_fails e = false).
    { intros e He. apply negb_true_iff, Hparse, He. }
    destruct (forallb (fun e => negb (stalls (negotiation envs) e)) envs)
      eqn:Hstall.
    + rewrite andb_true_r in Hc. apply negb_false_iff in Hc.
      assert (Hk : negotiation envs = Device)
        by (destruct (negotiation envs); (reflexivity || discriminate)).
      rewrite forallb_forall in Hstall.
      destruct (run_proceeds envs Hp) as [outs [Hrun Hall]].
      { intros e He. apply negb_true_iff, Hstall, He. }
      exists outs. split; [exact Hrun|]. rewrite Hk in Hall. split.
      * assert (Hne : envs <> [])
          by (apply negotiation_nil_managed; congruence).
        destruct Hall as [|e st l l' [s ->] _]; [congruence|].
        apply Exists_cons_hd. discriminate.
      * eapply existsb_Forall2_false; [exact Hall|].
        intros e st [s ->]. reflexivity.
    + apply forallb_false_Exists in Hstall.
      assert (Hfail : Exists (fun e => stalls (negotiation envs) e = true)
                        envs).
      { eapply Exists_impl; [|exact Hstall]. intros e He.
        apply negb_false_iff, He. }
      rewrite (run_stuck_before_reduction envs Hp Hfail).
      eexists. split; [reflexivity|].
      assert (Hall : Forall2 (fun e st =>
                                assert_failed st = false
                                /\ (stalls (negotiation envs) e = true ->
                                    exit_code st <> Some 0))
                       envs
                       (map (fun e =>
                               status_of
                                 (snd (play (map summary
                                               (negotiation_rounds envs))
                                         (start e)))) envs)).
      { apply Forall2_map_r. intros e He.
        destruct (process_before_reduction envs e (Hp e He))
          as [q [Hplay Hq]].
        rewrite Hplay. cbn [snd].
        apply before_reduction_stalls in Hq.
        destruct (stalls (negotiation envs) e).
        - destruct Hq as [s ->]. split; [reflexivity|]. discriminate.
        - destruct Hq as [s [c ->]]. split; [reflexivity|]. discriminate. }
      split.
      * destruct (Forall2_Exists_l _ _ _ _ Hall Hfail)
          as [e [st [Hin [[_ Hst] He]]]].
        apply Exists_exists. exists st. split; [exact Hin|apply Hst, He].
      * eapply existsb_Forall2_false; [exact Hall|].
        intros e st [H _]. exact H.
  - clear Hc. apply forallb_false_Exists in Hparse.
    assert (Hfail : Exists (fun e => parse_alloc_fails e = true) envs).
    { eapply Exists_impl; [|exact Hparse]. intros e He.
      apply negb_false_iff, He. }
    rewrite (run_stuck_at_start envs Hfail).
    eexists. split; [reflexivity|].
    assert (Hall : Forall2 (fun e st =>
                              assert_failed st = false
                              /\ (parse_alloc_fails e = true ->
                                  exit_code st <> Some 0))
                     envs (map (fun e => status_of (start e)) envs)).
    { apply Forall2_map_r. intros e He.
      destruct (parse_alloc_fails e) eqn:Hf.
      - destruct (start_parse_fails e Hf) as [s [-> _]].
        split; [reflexivity|]. discriminate.
      - destruct (start_enters_group e Hf) as [s [k [-> _]]].
        split; [reflexivity|]. discriminate. }
    split.
    + destruct (Forall2_Exists_l _ _ _ _ Hall Hfail)
        as [e [st [Hin [[_ Hst] He]]]].
      apply Exists_exists. exists st. split; [exact Hin|apply Hst, He].
    + eapply existsb_Forall2_false; [exact Hall|].
      intros e st [H _]. exact H.
Qed.

Lemma run_completes envs :
  completes envs = true ->
  exists outs,
    run envs = Some outs
    /\ Forall2 (fun e st => exists s, st = Exited 0 s) envs outs.
Proof.
  unfold completes. intros Hc.
  apply andb_prop in Hc. destruct Hc as [Hc Hstall].
  apply andb_prop in Hc. destruct Hc as [Hparse Hk].
  rewrite forallb_forall in Hparse, Hstall.
  destruct (run_proceeds envs) as [outs [Hrun Hall]].
  - intros e He. apply negb_true_iff, Hparse, He.
  - intros e He. apply negb_true_iff, Hstall, He.
  - exists outs. split; [exact Hrun|].
    destruct (negotiation envs); try discriminate; exact Hall.
Qed.

(** X10. Whatever [malloc] and the CUDA allocation return in each
    process, the run of a group ends, and every process returns 0 exactly
    when the kind agreed on is not Device and every process has the
    buffers of its path: the buffer for the value (line 36) where the key
    is there, and the managed buffer (line 108) when Managed is agreed on
    or the host buffer (line 122) on the fallback path. No assertion
    (lines 116, 137, 152) fails in any run. *)
Theorem exit_0_iff_buffers_and_not_device (envs : list env) :
  exists outs,
    run envs = Some outs
    /\ List.length outs = List.length envs
    /\ (Forall (fun st => exit_code st = Some 0) outs
        <-> completes envs = true)
    /\ existsb assert_failed outs = false.
Proof.
  assert (Hlen : forall outs, run envs = Some outs ->
                   List.length outs = List.length envs).
  { intros outs Hrun.
    destruct (run_world_total rounds_of_main (map start envs))
      as [answers Hw].
    - apply Forall_forall. intros p Hp. apply in_map_iff in Hp.
      destruct Hp as [e [<- _]].
      destruct (parse_alloc_fails e) eqn:Hfail.
      + destruct (start_parse_fails e Hfail) as [s [-> _]]. exact I.
      + apply tame_within, start_tame, Hfail.
    - unfold run in Hrun. rewrite Hw in Hrun. inversion Hrun.
      rewrite !length_map. reflexivity. }
  destruct (completes envs) eqn:Hc.
  - destruct (run_completes envs Hc) as [outs [Hrun Hall]].
    exists outs. split; [exact Hrun|]. split; [apply Hlen, Hrun|]. split.
    + split; [reflexivity|]. intros _.
      eapply Forall2_Forall_r; [exact Hall|].
      intros e st _ [s ->]. reflexivity.
    + eapply existsb_Forall2_false; [exact Hall|].
      intros e st [s ->]. reflexivity.
  - destruct (run_incomplete envs Hc) as [outs [Hrun [Hex Hassert]]].
    exists outs. split; [exact Hrun|]. split; [apply Hlen, Hrun|]. split.
    + split; [|discriminate]. intros Hall. exfalso.
      apply Exists_exists in Hex. destruct Hex as [st [Hin Hst]].
      rewrite Forall_forall in Hall. apply Hst, Hall, Hin.
    + exact Hassert.
Qed.

(** A group that falls back to system memory, in which [cudaMalloc] fails
    for the first process: no copy takes place there, and both processes
    return 0. A group that goes by Device: both processes stop at line
    137. *)
Example runs_with_and_without_device_memory :
  option_map (map (fun st =>
                     (exit_code st,
                      List.length (copies (trace (final_state st))))))
    (run [no_device_memory; all_kinds])
  = Some [(Some 0, 0%nat); (Some 0, 3%nat)]
  /\ option_map (map (fun st => (exit_code st, assert_failed st)))
       (run [device_only; device_only])
     = Some [(None, false); (None, false)].
Proof. split; vm_compute; reflexivity. Qed.

(** * The buffer for the value *)

Lemma after_query_state e :
  parse_alloc_fails e = false ->
  exists s,
    after_query e = Ret tt s
    /\ trace s = query_events (supported_kinds e)
    /\ info s = None
    /\ val s = None
    /\ existsb blk_live (heap s) = false
    /\ List.length (heap s)
       = match supported_kinds e with Some _ => 1%nat | None => 0%nat end.
Proof.
  intros Hok. unfold after_query.
  destruct e as [[v|] [|b0 l] c]; cbn in Hok;
    try (apply negb_false_iff in Hok; subst b0);
    cbv [supported_kinds]; sym_run;
    (eexists; split; [reflexivity|]); repeat split.
Qed.

(** X11. The value of [mpi_memory_alloc_kinds] is asked for twice: first
    with no buffer, which gives its length, then with a buffer of that
    length and one more byte, in which the whole value fits whatever its
    length; the buffer is freed, and the info of the session too, before
    line 55. When the key is not there the value is asked for once and
    [malloc] is not called. *)
Theorem query_buffer_fits_value (e : env) :
  parse_alloc_fails e = false ->
  exists s,
    after_query e = Ret tt s
    /\ info s = None
    /\ val s = None
    /\ existsb blk_live (heap s) = false
    /\ match supported_kinds e with
       | Some v =>
           let size := Z.of_nat (String.length v) + 1 in
           info_queries (trace s) = [(0, true); (size, true)]
           /\ malloc_sizes (trace s) = [size]
           /\ List.length (filter is_free (trace s)) = 1%nat
           /\ (ints s cuda_managed_aware, ints s cuda_device_aware)
              = kinds_loop (Some v) (0, 0)
       | None =>
           info_queries (trace s) = [(0, false)]
           /\ malloc_sizes (trace s) = []
           /\ heap s = []
           /\ ints s cuda_managed_aware = 0
           /\ ints s cuda_device_aware = 0
       end.
Proof.
  intros Hok.
  destruct (after_query_state e Hok) as [s [Hrun [Htr [Hi [Hv [Hl Hh]]]]]].
  destruct (after_query_flags e Hok) as [s' [Hrun' [Hflags _]]].
  rewrite Hrun in Hrun'. inversion Hrun'; subst s'.
  exists s. repeat (split; [assumption|]).
  rewrite Htr. unfold capabilities in Hflags.
  destruct (supported_kinds e) as [v|].
  - cbv zeta.
    replace (Z.of_nat (String.length v) + 1)
      with (Z.of_nat (S (String.length v))) by lia.
    repeat split; try reflexivity. exact Hflags.
  - injection Hflags as Hm Hd.
    assert (Hnil : heap s = [])
      by (destruct (heap s); [reflexivity|discriminate]).
    repeat split; assumption || reflexivity.
Qed.

Lemma query_buffer_fits_value_witness :
  exists s,
    after_query mixed_case = Ret tt s
    /\ malloc_sizes (trace s) = [25].
Proof.
  destruct (query_buffer_fits_value mixed_case eq_refl)
    as [s [Hrun [_ [_ [_ [_ [H _]]]]]]].
  exists s. split; [exact Hrun|exact H].
Defined.
